(** * pyscf.scf: method selection and the fast_newton pipeline

    A shallow embedding of [pyscf/scf/__init__.py]: the wrap functions
    [RHF], [ROHF], [UHF], [DHF], [X2C] that pick a solver class from a
    molecule, the decorators [density_fit] and [newton], and the
    orchestration function [fast_newton].

    Python objects are modelled as a class tag plus an attribute
    dictionary ([gmap string val]); objects live in a heap indexed by
    locations, so that aliasing and reference identity are visible.
    Calls that leave this module (the SCF iteration itself, logging, grid
    generation) are recorded in a trace of events. *)

From Stdlib Require Import ZArith QArith.
From stdpp Require Import base gmap strings list fin_maps.

Local Open Scope Z_scope.

(* ===================================================================== *)
(** ** Values                                                             *)
(* ===================================================================== *)

Definition loc := nat.

(** Python values that flow through this module.  [VNum] carries the
    decimal literal of a Python number as a rational (no arithmetic is
    done on them here, only comparison against [0]); [VData] is an opaque
    numerical array named by a tag; [VRef] is a reference to a heap
    object; [VMfKernel mf] is the closure [mf_kernel] created at the end
    of [fast_newton], which captures the handle [mf]. *)
Inductive val :=
| VNone
| VBool (b : bool)
| VNum (q : Q)
| VStr (s : string)
| VData (n : nat)
| VRef (l : loc)
| VMfKernel (mf : loc).

(* ===================================================================== *)
(** ** Method selector                                                    *)
(* ===================================================================== *)

Module Selector.

(** A Python string object: its text, and whether it is the interned
    constant of that text.  The source compares [mol.groupname is 'C1'],
    an identity test against the interned literal ['C1']. *)
Record pystr := PyStr { text : string; interned : bool }.

(** [s is 'C1'] *)
Definition is_C1 (s : pystr) : bool :=
  interned s && bool_decide (text s = "C1"%string).

Record Mole := {
  nelectron : Z;
  spin : Z;
  symmetry : bool;
  groupname : pystr
}.

(** The solver classes named in the module, [module_Class]. *)
Inductive solver_class :=
| hf_RHF | hf_HF1e
| rohf_ROHF
| hf_symm_RHF | hf_symm_ROHF | hf_symm_HF1e
| uhf_UHF | uhf_symm_UHF
| dhf_HF1e | dhf_UHF
| x2c_UHF
| dft_RKS | dft_ROKS | dft_UKS.

(** The result of a wrap function: the class that is instantiated and
    the arguments of the constructor call ([mol] and the positional
    [*args] that were forwarded). *)
Record instance := Instance {
  inst_class : solver_class;
  inst_mol : Mole;
  inst_args : list val
}.

Definition RHF (mol : Mole) (args : list val) : instance :=
  if nelectron mol =? 1 then
    if symmetry mol then Instance hf_symm_HF1e mol []
    else Instance hf_HF1e mol []
  else if negb (symmetry mol) || is_C1 (groupname mol) then
    if spin mol >? 0 then Instance rohf_ROHF mol args
    else Instance hf_RHF mol args
  else
    if spin mol >? 0 then Instance hf_symm_ROHF mol args
    else Instance hf_symm_RHF mol args.

Definition ROHF (mol : Mole) (args : list val) : instance :=
  if nelectron mol =? 1 then
    if symmetry mol then Instance hf_symm_HF1e mol []
    else Instance hf_HF1e mol []
  else if negb (symmetry mol) || is_C1 (groupname mol) then
    Instance rohf_ROHF mol args
  else
    Instance hf_symm_ROHF mol args.

Definition UHF (mol : Mole) (args : list val) : instance :=
  if nelectron mol =? 1 then RHF mol []
  else if negb (symmetry mol) || is_C1 (groupname mol) then
    Instance uhf_UHF mol args
  else
    Instance uhf_symm_UHF mol args.

Definition DHF (mol : Mole) (args : list val) : instance :=
  if nelectron mol =? 1 then Instance dhf_HF1e mol []
  else Instance dhf_UHF mol args.

Definition X2C (mol : Mole) (args : list val) : instance :=
  Instance x2c_UHF mol args.

Definition RKS (mol : Mole) (args : list val) : instance :=
  Instance dft_RKS mol [].

Definition ROKS (mol : Mole) (args : list val) : instance :=
  Instance dft_ROKS mol [].

Definition UKS (mol : Mole) (args : list val) : instance :=
  Instance dft_UKS mol [].

(** *** Vocabulary of the specification *)

(** One-electron specialisations and many-electron variants. *)
Definition one_electron (c : solver_class) : bool :=
  match c with
  | hf_HF1e | hf_symm_HF1e | dhf_HF1e => true
  | _ => false
  end.

(** The class defined in a symmetry module ([hf_symm], [uhf_symm]). *)
Definition symmetry_adapted (c : solver_class) : bool :=
  match c with
  | hf_symm_RHF | hf_symm_ROHF | hf_symm_HF1e | uhf_symm_UHF => true
  | _ => false
  end.

(** The symmetry-adapted counterpart of a class: the class of the same
    name in the [_symm] module.  The relativistic classes have none. *)
Definition symm_counterpart (c : solver_class) : solver_class :=
  match c with
  | hf_RHF => hf_symm_RHF
  | hf_HF1e => hf_symm_HF1e
  | rohf_ROHF => hf_symm_ROHF
  | uhf_UHF => uhf_symm_UHF
  | c => c
  end.

(** Point-group symmetry is active and the group is not ['C1']. *)
Definition nontrivial_symmetry (mol : Mole) : Prop :=
  symmetry mol = true ∧ text (groupname mol) ≠ "C1"%string.

Definition with_symmetry (b : bool) (mol : Mole) : Mole :=
  {| nelectron := nelectron mol; spin := spin mol;
     symmetry := b; groupname := groupname mol |}.

Definition with_spin (s : Z) (mol : Mole) : Mole :=
  {| nelectron := nelectron mol; spin := s;
     symmetry := symmetry mol; groupname := groupname mol |}.

(** The three non-relativistic entry points. *)
Inductive entry := EntryRHF | EntryROHF | EntryUHF.

Definition select (e : entry) : Mole → list val → instance :=
  match e with
  | EntryRHF => RHF
  | EntryROHF => ROHF
  | EntryUHF => UHF
  end.

(** The variant for a system with symmetry disabled, as the
    specification words it: the ROHF family for spin > 0 and closed-shell
    RHF for spin == 0 in the restricted families, UHF for the
    unrestricted family.  (The specification leaves a negative spin
    open; it is put with spin == 0 here.) *)
Definition spec_variant (e : entry) (mol : Mole) : solver_class :=
  match e with
  | EntryRHF | EntryROHF => if spin mol >? 0 then rohf_ROHF else hf_RHF
  | EntryUHF => uhf_UHF
  end.

End Selector.

(* ===================================================================== *)
(** ** Objects, heap and effects                                          *)
(* ===================================================================== *)

(** The class of a heap object.  [DFHF c] is the class built by
    [mf.density_fit] on top of class [c]; [NewtonAH c] the one built by
    [newton_ah.newton]. *)
Inductive cls :=
| Solver (c : Selector.solver_class)
| DFHF (parent : cls)
| NewtonAH (parent : cls)
| GridsClass
| NumIntClass
| TensorClass.

(** An object: its class and its instance dictionary. *)
Record obj := Obj { obj_class : cls; obj_dict : gmap string val }.

Inductive log_level := Note | Warn.

(** What the module does to the outside world, in order of occurrence. *)
Inductive event :=
| EvLog (level : log_level) (target : loc) (msg : string)
    (* [logger.note(target, msg)] / [logger.warn(target, msg)] *)
| EvDecorate (src new : loc)
    (* a decorator returned the new handle [new] built from [src] *)
| EvGrids (g : loc)
    (* [gen_grid.Grids(mol)] built the grid object [g] *)
| EvCopy (src new : loc)
    (* [copy.copy] duplicated object [src] as [new] *)
| EvCall (l : loc) (self : obj) (args : list val)
    (* [l.kernel] was called with [args]; [self] is the object then *)
| EvSolve (l : loc) (self : obj) (args : list val)
    (* the self-consistency iteration of [l]'s class was run *)
| EvBuildCache (l : loc) (t : loc).
    (* the solve of [l] built the auxiliary tensor [t] *)

Record world := World { heap : gmap loc obj; trace : list event }.

Inductive error :=
| AttributeError (l : loc) (name : string)
| NameError (name : string)
| TypeError (v : val)
| Dangling (l : loc).

Inductive result (A : Type) :=
| Ok (a : A) (w : world)
| Raise (e : error) (w : world).
Arguments Ok {A} a w.
Arguments Raise {A} e w.

(** The world a computation ends in, normally or not. *)
Definition final_world {A} (r : result A) : world :=
  match r with Ok _ w | Raise _ w => w end.

(** Computations: state passing over the world, with exceptions. *)
Definition M (A : Type) : Type := world → result A.

Global Instance M_ret : MRet M := fun A a w => Ok a w.

Global Instance M_bind : MBind M := fun A B k m w =>
  match m w with
  | Ok a w' => k a w'
  | Raise e w' => Raise e w'
  end.

Definition raise {A} (e : error) : M A := fun w => Raise e w.

Definition emit (ev : event) : M unit :=
  fun w => Ok tt (World (heap w) (trace w ++ [ev])).

(** A new object gets a location that is not in use. *)
Definition alloc (o : obj) : M loc :=
  fun w => let l := fresh (dom (heap w)) in
           Ok l (World (<[l := o]> (heap w)) (trace w)).

Definition deref (l : loc) : M obj :=
  fun w => match heap w !! l with
           | Some o => Ok o w
           | None => Raise (Dangling l) w
           end.

Definition store (l : loc) (o : obj) : M unit :=
  fun w => Ok tt (World (<[l := o]> (heap w)) (trace w)).

(** [l.name] *)
Definition getattr (l : loc) (name : string) : M val :=
  o ← deref l;
  match obj_dict o !! name with
  | Some v => mret v
  | None => raise (AttributeError l name)
  end.

(** [hasattr(l, name)] *)
Definition hasattr (l : loc) (name : string) : M bool :=
  o ← deref l;
  mret (bool_decide (is_Some (obj_dict o !! name))).

(** [l.name = v], also [setattr(l, name, v)] *)
Definition setattr (l : loc) (name : string) (v : val) : M unit :=
  o ← deref l;
  store l (Obj (obj_class o) (<[name := v]> (obj_dict o))).

(** [v is None] *)
Definition is_None (v : val) : bool :=
  match v with VNone => true | _ => false end.

(** [v == 0] on Python values: numbers compare by value and [False]
    equals [0]; nothing else does. *)
Definition eq_zero (v : val) : bool :=
  match v with
  | VNum q => Qeq_bool q 0
  | VBool b => negb b
  | _ => false
  end.

(** [copy.copy(v)]: a shallow copy of an object is a new object with the
    same class and dictionary; immutable values are returned as they
    are. *)
Definition copy_copy (v : val) : M val :=
  match v with
  | VRef l =>
      o ← deref l;
      l' ← alloc o;
      emit (EvCopy l l');;
      mret (VRef l')
  | v => mret v
  end.

(* ===================================================================== *)
(** ** The collaborators of the module                                    *)
(* ===================================================================== *)

(** What one run of the self-consistency iteration leaves on a solver:
    the saved results listed in the module docstring, and the dimension
    of the auxiliary basis when a fitting tensor is built. *)
Record scf_result := {
  r_converged : bool;
  r_e_tot : val;
  r_mo_energy : val;
  r_mo_coeff : val;
  r_mo_occ : val;
  r_naoaux : val
}.

(** The tensor cache [_cderi] of a solver holds something. *)
Definition cache_populated (o : obj) : bool :=
  match obj_dict o !! "_cderi" with
  | Some v => negb (is_None v)
  | None => false
  end.

(** The class has a density-fitting layer. *)
Fixpoint density_fitted (c : cls) : bool :=
  match c with
  | DFHF _ => true
  | NewtonAH c => density_fitted c
  | _ => false
  end.

(** The class has a Newton layer. *)
Fixpoint newton_decorated (c : cls) : bool :=
  match c with
  | NewtonAH _ => true
  | DFHF c => newton_decorated c
  | _ => false
  end.

(** The class without its decorations. *)
Fixpoint base_class (c : cls) : cls :=
  match c with
  | DFHF c | NewtonAH c => base_class c
  | c => c
  end.

Definition msg_guess_rule : string :=
  "========================================================".
Definition msg_guess_begin : string :=
  "Generating initial guess with DIIS-SCF for newton solver".
Definition msg_end_rule : string := "============================".
Definition msg_guess_end : string := "Generating initial guess end".
Definition msg_no_second_kernel : string :=
  "fast_newton is a wrap function to quickly setup and call Newton solver. There's no need to call kernel function again for fast_newton.".

Section Pipeline.

(** The numerical collaborators, consumed through their interfaces. *)

(** The self-consistency iteration of a solver, given the solver as it
    is when the iteration starts and the arguments of the call. *)
Variable scf : obj → list val → scf_result.

(** [mf.from_dm(dm0)]: orbitals and occupations from a density matrix. *)
Variable from_dm : obj → val → val * val.

(** [df.addons.aug_etb_for_dfbasis(mol, dfbasis, beta=...)] *)
Variable aug_etb_for_dfbasis : val → string → Q → val.

(** Modelled from the spec: the method [mf.density_fit] is defined in
    the solver classes, outside this module.  It returns a new handle
    whose class has a density-fitting layer on top of the class of [mf],
    carrying the attributes of [mf] (the decoration is transparent to
    them) together with the auxiliary basis; a supplied [with_df] is kept
    on the new handle.  Nothing is computed until the first solve. *)
Definition method_density_fit (mf : loc) (auxbasis with_df : val) : M loc :=
  o ← deref mf;
  let d := <["auxbasis" := auxbasis]> (obj_dict o) in
  let d := if is_None with_df then d else <["with_df" := with_df]> d in
  l ← alloc (Obj (DFHF (obj_class o)) d);
  emit (EvDecorate mf l);;
  mret l.

(** Modelled from the spec: [newton_ah.newton] is defined outside this
    module.  It returns a new handle whose class has a Newton layer on
    top of the class of [mf], whatever decoration that class has, and
    which carries the attributes of [mf]. *)
Definition newton_ah_newton (mf : loc) : M loc :=
  o ← deref mf;
  l ← alloc (Obj (NewtonAH (obj_class o)) (obj_dict o));
  emit (EvDecorate mf l);;
  mret l.

(** Modelled from the spec: [gen_grid.Grids(mol)] is defined outside
    this module; it returns a new grid object for the molecule. *)
Definition gen_grid_Grids (mol : val) : M loc :=
  g ← alloc (Obj GridsClass {["mol" := mol]});
  emit (EvGrids g);;
  mret g.

(** Modelled from the spec: the [kernel] method of the solver classes is
    defined outside this module.  It runs the self-consistency iteration
    and saves [converged], [e_tot], [mo_energy], [mo_coeff], [mo_occ] on
    the solver.  A density-fitted solver whose tensor cache [_cderi] is
    not populated builds the tensor (a new object) on first use and
    records its dimension; a populated cache is reused as it is. *)
Definition class_kernel (l : loc) (args : list val) : M val :=
  self ← deref l;
  emit (EvSolve l self args);;
  let r := scf self args in
  (if density_fitted (obj_class self) && negb (cache_populated self) then
     t ← alloc (Obj TensorClass ∅);
     emit (EvBuildCache l t);;
     setattr l "_cderi" (VRef t);;
     setattr l "_naoaux" (r_naoaux r)
   else mret tt);;
  setattr l "converged" (VBool (r_converged r));;
  setattr l "e_tot" (r_e_tot r);;
  setattr l "mo_energy" (r_mo_energy r);;
  setattr l "mo_coeff" (r_mo_coeff r);;
  setattr l "mo_occ" (r_mo_occ r);;
  mret (r_e_tot r).

(** The closure [mf_kernel] defined inside [fast_newton]; [mf] is the
    handle it captured. *)
Definition mf_kernel (mf : loc) (args : list val) : M val :=
  emit (EvLog Warn mf msg_no_second_kernel);;
  getattr mf "e_tot".

(** [l.kernel(args)]: an entry [kernel] in the instance dictionary
    shadows the method of the class.  The only callable values of the
    model are the [mf_kernel] closures. *)
Definition call_kernel (l : loc) (args : list val) : M val :=
  self ← deref l;
  emit (EvCall l self args);;
  match obj_dict self !! "kernel" with
  | None => class_kernel l args
  | Some (VMfKernel mf) => mf_kernel mf args
  | Some v => raise (TypeError v)
  end.

(* ===================================================================== *)
(** ** Decoration layer and orchestration                                 *)
(* ===================================================================== *)

(** [density_fit(mf, auxbasis='weigend+etb', with_df=None)] *)
Definition density_fit (mf : loc) (auxbasis : val) (with_df : val) : M loc :=
  method_density_fit mf auxbasis with_df.

Definition newton (mf : loc) : M loc :=
  newton_ah_newton mf.

(** [for key in kwargs: setattr(l, key, kwargs[key])] *)
Fixpoint setattrs (l : loc) (kvs : list (string * val)) : M unit :=
  match kvs with
  | [] => mret tt
  | (key, v) :: kvs => setattr l key v;; setattrs l kvs
  end.

(** The locals [approx_grids] and [approx_numint], bound only when the
    base solver has a [grids] attribute. *)
Definition approx := option (loc * val).

(** [fast_newton], lines 184-185: the auxiliary basis. *)
Definition choose_auxbasis (mf : loc) (auxbasis : val) : M val :=
  if is_None auxbasis then
    mol ← getattr mf "mol";
    mret (aug_etb_for_dfbasis mol "ahlrichs" (5 # 2))
  else mret auxbasis.

(** [fast_newton], lines 186-198: the refined solver [mf1]. *)
Definition build_refined (mf : loc) (auxbasis : val)
    (newton_kwargs : gmap string val) : M (loc * approx) :=
  n ← newton mf;
  mf1 ← density_fit n auxbasis VNone;
  setattrs mf1 (map_to_list newton_kwargs);;
  has_grids ← hasattr mf "grids";
  if (has_grids : bool) then
    mol ← getattr mf "mol";
    approx_grids ← gen_grid_Grids mol;
    setattr approx_grids "verbose" (VNum 0);;
    setattr approx_grids "level" (VNum 0);;
    setattr mf1 "grids" (VRef approx_grids);;
    numint ← getattr mf "_numint";
    approx_numint ← copy_copy numint;
    setattr mf1 "_numint" approx_numint;;
    mret (mf1, Some (approx_grids, approx_numint))
  else mret (mf1, None).

(** [fast_newton], lines 203-227: the warm start.  Returns the locals
    [mf0], [mo_coeff], [mo_occ]. *)
Definition warm_start (mf mf1 : loc) (ap : approx) (auxbasis : val)
    : M (loc * val * val) :=
  emit (EvLog Note mf msg_guess_rule);;
  emit (EvLog Note mf msg_guess_begin);;
  emit (EvLog Note mf msg_guess_rule);;
  mf0 ← density_fit mf auxbasis VNone;
  setattr mf0 "conv_tol" (VNum (1 # 4));;
  setattr mf0 "conv_tol_grad" (VNum (1 # 2));;
  level_shift ← getattr mf0 "level_shift";
  (if eq_zero level_shift then setattr mf0 "level_shift" (VNum (3 # 10))
   else mret tt);;
  has_grids ← hasattr mf "grids";
  (if (has_grids : bool) then
     match ap with
     | Some (approx_grids, approx_numint) =>
         setattr mf0 "grids" (VRef approx_grids);;
         setattr mf0 "_numint" approx_numint;;
         setattr mf0 "small_rho_cutoff" (VNum (1 # 100000))
     | None => raise (NameError "approx_grids")
     end
   else mret tt);;
  call_kernel mf0 [];;
  cderi ← getattr mf0 "_cderi";
  setattr mf1 "_cderi" cderi;;
  naoaux ← getattr mf0 "_naoaux";
  setattr mf1 "_naoaux" naoaux;;
  mo_coeff ← getattr mf0 "mo_coeff";
  mo_occ ← getattr mf0 "mo_occ";
  emit (EvLog Note mf msg_end_rule);;
  emit (EvLog Note mf msg_guess_end);;
  emit (EvLog Note mf msg_end_rule);;
  mret (mf0, mo_coeff, mo_occ).

(** [fast_newton], lines 200-227: the initial guess of the refined
    solver. *)
Definition initial_guess (mf mf1 : loc) (ap : approx)
    (mo_coeff mo_occ dm0 auxbasis : val) : M (val * val) :=
  if negb (is_None dm0) then
    self ← deref mf1;
    mret (from_dm self dm0)
  else if is_None mo_coeff || is_None mo_occ then
    '(_, mo_coeff, mo_occ) ← warm_start mf mf1 ap auxbasis;
    mret (mo_coeff, mo_occ)
  else mret (mo_coeff, mo_occ).

(** [fast_newton], lines 229-242: the refinement, the copy of its
    results onto [mf], and the replacement of [mf.kernel]. *)
Definition refine_and_finalize (mf mf1 : loc) (mo_coeff mo_occ : val)
    : M loc :=
  call_kernel mf1 [mo_coeff; mo_occ];;
  v ← getattr mf1 "converged"; setattr mf "converged" v;;
  v ← getattr mf1 "e_tot"; setattr mf "e_tot" v;;
  v ← getattr mf1 "mo_energy"; setattr mf "mo_energy" v;;
  v ← getattr mf1 "mo_coeff"; setattr mf "mo_coeff" v;;
  v ← getattr mf1 "mo_occ"; setattr mf "mo_occ" v;;
  setattr mf "kernel" (VMfKernel mf);;
  mret mf.

(** [fast_newton(mf, mo_coeff=None, mo_occ=None, dm0=None,
    auxbasis=None, **newton_kwargs)] *)
Definition fast_newton (mf : loc) (mo_coeff mo_occ dm0 auxbasis : val)
    (newton_kwargs : gmap string val) : M loc :=
  auxbasis ← choose_auxbasis mf auxbasis;
  '(mf1, ap) ← build_refined mf auxbasis newton_kwargs;
  '(mo_coeff, mo_occ) ← initial_guess mf mf1 ap mo_coeff mo_occ dm0 auxbasis;
  refine_and_finalize mf mf1 mo_coeff mo_occ.

Definition msg_fast_scf : string :=
  "NOTE function fast_scf will be removed in the next release. Use function fast_newton instead".

Definition fast_scf (mf : loc) : M loc :=
  emit (EvLog Warn mf msg_fast_scf);;
  fast_newton mf VNone VNone VNone VNone ∅.

(** The refined solver as the specification words it: Newton refinement
    applied on top of density fitting. *)
Definition spec_refined (mf : loc) (auxbasis : val) : M loc :=
  fitted ← density_fit mf auxbasis VNone;
  newton fitted.

(** [l.kernel] invoked once for each argument list, in order. *)
Fixpoint invoke_all (l : loc) (argss : list (list val)) : M (list val) :=
  match argss with
  | [] => mret []
  | args :: argss =>
      e ← call_kernel l args;
      es ← invoke_all l argss;
      mret (e :: es)
  end.

End Pipeline.

(* ===================================================================== *)
(** ** Observations on a run                                              *)
(* ===================================================================== *)

(** The events a run added to the trace. *)
Definition new_events (w w' : world) : list event :=
  drop (length (trace w)) (trace w').

Definition events_of {A} (m : M A) (w : world) : list event :=
  new_events w (final_world (m w)).

(** The [kernel] invocations, in order: callee, callee object at the
    time of the call, arguments. *)
Definition kernel_calls (evs : list event) : list (loc * obj * list val) :=
  omap (λ e, match e with EvCall l o a => Some (l, o, a) | _ => None end) evs.

(** The decorator applications, in order: source handle, new handle. *)
Definition decorations (evs : list event) : list (loc * loc) :=
  omap (λ e, match e with EvDecorate a b => Some (a, b) | _ => None end) evs.

(** The self-consistency iterations that were run. *)
Definition solves (evs : list event) : list (loc * obj * list val) :=
  omap (λ e, match e with EvSolve l o a => Some (l, o, a) | _ => None end) evs.

(** The tensor caches that were built: solver, tensor. *)
Definition cache_builds (evs : list event) : list (loc * loc) :=
  omap (λ e, match e with EvBuildCache l t => Some (l, t) | _ => None end) evs.

(** The log lines: level, target, message. *)
Definition logs (evs : list event) : list (log_level * loc * string) :=
  omap (λ e, match e with EvLog lv t m => Some (lv, t, m) | _ => None end) evs.

(** Grid coarsening: a grid was generated or an evaluator was copied. *)
Definition grid_steps (evs : list event) : list event :=
  omap (λ e, match e with EvGrids _ | EvCopy _ _ => Some e | _ => None end) evs.

(** [l.name] as an observation on a world. *)
Definition attr (w : world) (l : loc) (name : string) : option val :=
  o ← heap w !! l; obj_dict o !! name.

(** The dictionary of a solver once the results [r] are saved on it. *)
Definition save_results (r : scf_result) (d : gmap string val)
    : gmap string val :=
  <["mo_occ" := r_mo_occ r]>
    (<["mo_coeff" := r_mo_coeff r]>
       (<["mo_energy" := r_mo_energy r]>
          (<["e_tot" := r_e_tot r]>
             (<["converged" := VBool (r_converged r)]> d)))).

(** The solve of this object has to build its tensor cache. *)
Definition builds_cache (self : obj) : bool :=
  density_fitted (obj_class self) && negb (cache_populated self).

(** The dictionary a solve leaves on the solver [self]; [t] is the new
    tensor, used when the cache has to be built. *)
Definition solved_dict (r : scf_result) (t : loc) (self : obj)
    : gmap string val :=
  save_results r
    (if builds_cache self then
       <["_naoaux" := r_naoaux r]> (<["_cderi" := VRef t]> (obj_dict self))
     else obj_dict self).

(** The dictionary of the warm-start solver when its [kernel] is called,
    from the dictionary [d] of the base solver: the auxiliary basis, the
    loosened tolerances, the level shift and, when the base solver has
    grids, the coarse grid and evaluator [ap]. *)
Definition warm_start_dict (aux : val) (ap : approx) (d : gmap string val)
    : gmap string val :=
  let d0 := <["conv_tol_grad" := VNum (1 # 2)]>
              (<["conv_tol" := VNum (1 # 4)]> (<["auxbasis" := aux]> d)) in
  let d1 := match d !! "level_shift" with
            | Some ls =>
                if eq_zero ls then <["level_shift" := VNum (3 # 10)]> d0
                else d0
            | None => d0
            end in
  match d !! "grids", ap with
  | Some _, Some (g, ni) =>
      <["small_rho_cutoff" := VNum (1 # 100000)]>
        (<["_numint" := ni]> (<["grids" := VRef g]> d1))
  | _, _ => d1
  end.

(** The dictionary of the caller's handle once [fast_newton] has copied
    the five results onto it and replaced its [kernel]. *)
Definition finalized_dict (mf : loc) (vc ve vme vmc vmo : val)
    (d : gmap string val) : gmap string val :=
  <["kernel" := VMfKernel mf]>
    (<["mo_occ" := vmo]>
       (<["mo_coeff" := vmc]>
          (<["mo_energy" := vme]>
             (<["e_tot" := ve]> (<["converged" := vc]> d))))).

(** The [kernel] of the handle is the method of its class: the instance
    dictionary does not shadow it. *)
Definition kernel_of_class (o : obj) : Prop := obj_dict o !! "kernel" = None.

(** The attributes [fast_newton] copies from the refined solver. *)
Definition result_attributes : list string :=
  ["converged"; "e_tot"; "mo_energy"; "mo_coeff"; "mo_occ"]%string.

(** The caller gave an initial guess: a density matrix, or both the
    orbital coefficients and the occupations. *)
Definition guess_supplied (mo_coeff mo_occ dm0 : val) : bool :=
  negb (is_None dm0) || (negb (is_None mo_coeff) && negb (is_None mo_occ)).

(** The class of the solver whose [kernel] is called last: in a run that
    returns, the solver of the refinement phase. *)
Definition refine_call_class (evs : list event) : option cls :=
  (λ c, obj_class c.1.2) <$> last (kernel_calls evs).

(** The class of the handle a computation returns. *)
Definition built_class (r : result loc) : option cls :=
  match r with
  | Ok l w => obj_class <$> heap w !! l
  | Raise _ _ => None
  end.

(** An event that belongs to the warm start only: a line of its banner,
    or a [kernel] call without arguments. *)
Definition warm_start_event (e : event) : bool :=
  match e with
  | EvLog Note _ _ => true
  | EvCall _ _ [] => true
  | _ => false
  end.

(** The computation adds no warm-start event to the trace, whether it
    returns or raises. *)
Definition no_warm_start {A} (m : M A) : Prop :=
  ∀ w, ∃ evs, trace (final_world (m w)) = trace w ++ evs
              ∧ Forall (λ e, warm_start_event e = false) evs.

(** The convergence threshold a solver has unless told otherwise
    (module docstring: [conv_tol], default 1e-10). *)
Definition default_conv_tol : Q := 1 # 10000000000.

(** A threshold is loosened with respect to a default when it is a
    number above it. *)
Definition loosened (default : Q) (v : val) : Prop :=
  ∃ q, v = VNum q ∧ (default < q)%Q.

(** A base solver on which [fast_newton] can run.  It has the
    attributes every solver of the suite has ([mol], [level_shift]); its
    [kernel] is the method of its class; a populated tensor cache comes
    with its dimension; and if it has [grids] it has an integration
    evaluator [_numint], which, when an object, is a live one. *)
Record solver_ready (w : world) (o : obj) : Prop := {
  ready_mol : is_Some (obj_dict o !! "mol");
  ready_level_shift : is_Some (obj_dict o !! "level_shift");
  ready_kernel : kernel_of_class o;
  ready_cache :
    cache_populated o = true → is_Some (obj_dict o !! "_naoaux");
  ready_numint :
    is_Some (obj_dict o !! "grids") →
    ∃ v, obj_dict o !! "_numint" = Some v
         ∧ ∀ l, v = VRef l → is_Some (heap w !! l)
}.

(* ===================================================================== *)
(** ** Sample inputs                                                      *)
(* ===================================================================== *)

Module Samples.
Import Selector.

(** A hydrogen atom built with symmetry detection on: one electron,
    point group found to be ['C1']. *)
Definition h_atom_c1 : Mole :=
  {| nelectron := 1; spin := 1; symmetry := true;
     groupname := PyStr "C1" true |}.

(** Water in its [C2v] point group, and its cation. *)
Definition water_c2v : Mole :=
  {| nelectron := 10; spin := 0; symmetry := true;
     groupname := PyStr "C2v" true |}.

(** Triplet oxygen, built without symmetry detection. *)
Definition o2_triplet : Mole :=
  {| nelectron := 16; spin := 2; symmetry := false;
     groupname := PyStr "C1" true |}.

(** A molecule without symmetry elements, built with symmetry detection
    on: the point group is the constant ['C1']. *)
Definition chfclbr : Mole :=
  {| nelectron := 68; spin := 0; symmetry := true;
     groupname := PyStr "C1" true |}.

(** The same molecule whose group name is a string equal to ['C1'] made
    at run time (read from a file, say), not the constant. *)
Definition chfclbr_runtime_name : Mole :=
  {| nelectron := 68; spin := 0; symmetry := true;
     groupname := PyStr "C1" false |}.

(** Numerical collaborators: an iteration that does not converge when
    started without a guess and converges from a guess. *)
Definition scf_sample (self : obj) (args : list val) : scf_result :=
  {| r_converged := match args with [] => false | _ => true end;
     r_e_tot := VNum (-(11 # 10));
     r_mo_energy := VData 1;
     r_mo_coeff := VData 2;
     r_mo_occ := VData 3;
     r_naoaux := VNum 28 |}.

Definition from_dm_sample (self : obj) (dm : val) : val * val :=
  (VData 10, VData 11).

Definition aug_etb_sample (mol : val) (dfbasis : string) (beta : Q) : val :=
  VStr "etb".

(** A closed-shell solver for H2, as [scf.RHF(mol)] leaves it. *)
Definition rhf_h2 : obj :=
  Obj (Solver hf_RHF)
      {[ "mol" := VStr "H2"; "level_shift" := VNum 0;
         "conv_tol" := VNum default_conv_tol ]}.

Definition h2_world : world := World {[ 0%nat := rhf_h2 ]} [].

(** The same with a level shift requested by the user. *)
Definition rhf_h2_shifted : obj :=
  Obj (Solver hf_RHF)
      {[ "mol" := VStr "H2"; "level_shift" := VNum (1 # 5);
         "conv_tol" := VNum default_conv_tol ]}.

Definition h2_shifted_world : world := World {[ 0%nat := rhf_h2_shifted ]} [].

(** [fast_newton(mf)] on the H2 solver. *)
Definition h2_run : result loc :=
  fast_newton scf_sample from_dm_sample aug_etb_sample
    0%nat VNone VNone VNone VNone ∅ h2_world.

(** [fast_newton(mf, mo_coeff, mo_occ, auxbasis='weigend')] *)
Definition h2_run_seeded : result loc :=
  fast_newton scf_sample from_dm_sample aug_etb_sample
    0%nat (VData 5) (VData 6) VNone (VStr "weigend") ∅ h2_world.

(** [fast_newton(mf, mo_coeff, mo_occ, dm0)] *)
Definition h2_run_dm : result loc :=
  fast_newton scf_sample from_dm_sample aug_etb_sample
    0%nat (VData 5) (VData 6) (VData 7) VNone ∅ h2_world.

(** [fast_newton(mf, mo_coeff, mo_occ, max_cycle_inner=12)] *)
Definition h2_run_kwargs : result loc :=
  fast_newton scf_sample from_dm_sample aug_etb_sample
    0%nat (VData 5) (VData 6) VNone VNone
    {[ "max_cycle_inner" := VNum 12 ]} h2_world.




(** A solver that has [grids] and no [_numint]. *)
Definition grids_only : obj :=
  Obj (Solver hf_RHF)
      {[ "mol" := VStr "H2"; "level_shift" := VNum 0;
         "grids" := VRef 1%nat ]}.

Definition grids_only_world : world :=
  World {[ 0%nat := grids_only; 1%nat := Obj GridsClass ∅ ]} [].

(** A solver without [level_shift], and one without [mol]. *)
Definition no_level_shift : obj :=
  Obj (Solver hf_RHF) {[ "mol" := VStr "H2" ]}.

Definition no_level_shift_world : world :=
  World {[ 0%nat := no_level_shift ]} [].

Definition no_mol : obj :=
  Obj (Solver hf_RHF) {[ "level_shift" := VNum 0 ]}.

Definition no_mol_world : world := World {[ 0%nat := no_mol ]} [].

End Samples.

(* ===================================================================== *)
(** ** The method selector                                                *)
(* ===================================================================== *)

Module SelectorFacts.
Import Selector.

Lemma is_C1_text (s : pystr) : is_C1 s = true → text s = "C1"%string.
Proof.
  unfold is_C1. intros H. apply andb_prop in H as [_ H].
  by apply bool_decide_eq_true in H.
Qed.

Lemma nontrivial_not_C1 (mol : Mole) :
  nontrivial_symmetry mol →
  negb (symmetry mol) || is_C1 (groupname mol) = false.
Proof.
  intros [Hs Ht]. rewrite Hs. simpl.
  destruct (is_C1 (groupname mol)) eqn:E; [|done].
  by apply is_C1_text in E.
Qed.

(** C2, as stated, fails: for the one-electron system [h_atom_c1] the
    symmetry flag is on and the point group is ['C1'], so the symmetry is
    not nontrivial, and yet [RHF] returns the symmetry-aware one-electron
    form. *)
Lemma one_electron_form_ignores_point_group :
  ¬ (inst_class (RHF Samples.h_atom_c1 []) = hf_symm_HF1e
     ↔ nontrivial_symmetry Samples.h_atom_c1).
Proof.
  intros [H _]. destruct (H eq_refl) as [_ Hne]. by apply Hne.
Qed.

(** C2, amended: for every system with one electron, each of the entry
    points [RHF], [ROHF], [UHF] returns a one-electron specialisation
    whatever the spin, never a many-electron variant; it is the
    symmetry-aware form exactly when the symmetry flag of the molecule is
    on (whatever the point group, ['C1'] included) and the plain form
    otherwise. *)
Theorem one_electron_selection (e : entry) (mol : Mole) (args : list val) :
  nelectron mol = 1 →
  select e mol args
    = Instance (if symmetry mol then hf_symm_HF1e else hf_HF1e) mol []
  ∧ one_electron (inst_class (select e mol args)) = true
  ∧ (inst_class (select e mol args) = hf_symm_HF1e ↔ symmetry mol = true)
  ∧ (inst_class (select e mol args) = hf_HF1e ↔ symmetry mol = false).
Proof.
  intros H1.
  assert (Hsel : select e mol args
    = Instance (if symmetry mol then hf_symm_HF1e else hf_HF1e) mol []).
  { destruct e; simpl; unfold UHF, RHF, ROHF; rewrite H1; simpl;
      by destruct (symmetry mol). }
  rewrite Hsel. split; [done|].
  destruct (symmetry mol); simpl; repeat split; intros; congruence.
Qed.

Lemma one_electron_selection_witness :
  nelectron Samples.h_atom_c1 = 1
  ∧ select EntryUHF Samples.h_atom_c1 [VNum 1]
    = Instance hf_symm_HF1e Samples.h_atom_c1 [].
Proof.
  split; [reflexivity|].
  exact (proj1 (one_electron_selection EntryUHF Samples.h_atom_c1 [VNum 1]
                  eq_refl)).
Defined.

(** C3, as stated, fails: water in [C2v] has ten electrons, spin 0 and a
    nontrivial point group, and through [ROHF] the class chosen with
    symmetry off is [rohf.ROHF], not the closed-shell [hf.RHF] the claim
    names for spin == 0; what [ROHF] returns is [hf_symm.ROHF], not the
    symmetry-adapted counterpart of [hf.RHF].  [ROHF] has no test of the
    spin. *)
Lemma ROHF_entry_is_open_shell_at_spin_zero :
  nelectron Samples.water_c2v ≠ 1
  ∧ nontrivial_symmetry Samples.water_c2v
  ∧ spin Samples.water_c2v = 0
  ∧ inst_class (ROHF (with_symmetry false Samples.water_c2v) []) = rohf_ROHF
  ∧ spec_variant EntryROHF Samples.water_c2v = hf_RHF
  ∧ ROHF Samples.water_c2v [] = Instance hf_symm_ROHF Samples.water_c2v []
  ∧ ROHF Samples.water_c2v []
    ≠ Instance (symm_counterpart (spec_variant EntryROHF Samples.water_c2v))
        Samples.water_c2v [].
Proof.
  split; [discriminate|].
  split; [split; [reflexivity | discriminate]|].
  do 4 (split; [reflexivity|]).
  discriminate.
Qed.

(** C3, amended: for every system that does not have exactly one
    electron and whose point-group symmetry is on and not ['C1'], each
    entry point returns the symmetry-adapted counterpart of the class it
    returns for the same system (same spin) with symmetry off; with
    symmetry off that class is [rohf.ROHF] for spin > 0 and [hf.RHF]
    otherwise through [RHF], [rohf.ROHF] at every spin (spin 0 included)
    through [ROHF], and [uhf.UHF] through [UHF]. *)
Theorem symmetry_adapted_selection (e : entry) (mol : Mole) (args : list val) :
  nelectron mol ≠ 1 →
  nontrivial_symmetry mol →
  select e mol args
    = Instance
        (symm_counterpart
           (inst_class (select e (with_symmetry false mol) args)))
        mol args
  ∧ inst_class (select e (with_symmetry false mol) args)
    = match e with
      | EntryRHF => if spin mol >? 0 then rohf_ROHF else hf_RHF
      | EntryROHF => rohf_ROHF
      | EntryUHF => uhf_UHF
      end
  ∧ symmetry_adapted (inst_class (select e mol args)) = true.
Proof.
  intros Hn Hsym.
  pose proof (nontrivial_not_C1 mol Hsym) as Hc.
  apply Z.eqb_neq in Hn.
  destruct e; simpl; unfold UHF, RHF, ROHF; simpl; rewrite Hn, Hc; simpl;
    destruct (spin mol >? 0); done.
Qed.

Lemma symmetry_adapted_selection_witness :
  nelectron Samples.water_c2v ≠ 1
  ∧ nontrivial_symmetry Samples.water_c2v
  ∧ select EntryRHF Samples.water_c2v []
    = Instance hf_symm_RHF Samples.water_c2v []
  ∧ select EntryROHF Samples.water_c2v []
    = Instance hf_symm_ROHF Samples.water_c2v []
  ∧ select EntryUHF Samples.water_c2v []
    = Instance uhf_symm_UHF Samples.water_c2v [].
Proof.
  assert (Hn : nelectron Samples.water_c2v ≠ 1) by discriminate.
  assert (Hs : nontrivial_symmetry Samples.water_c2v)
    by (split; [reflexivity | discriminate]).
  split; [exact Hn|]. split; [exact Hs|].
  split; [|split].
  - exact (proj1 (symmetry_adapted_selection EntryRHF Samples.water_c2v []
                    Hn Hs)).
  - exact (proj1 (symmetry_adapted_selection EntryROHF Samples.water_c2v []
                    Hn Hs)).
  - exact (proj1 (symmetry_adapted_selection EntryUHF Samples.water_c2v []
                    Hn Hs)).
Defined.

End SelectorFacts.

(* ===================================================================== *)
(** ** More on the method selector                                        *)
(* ===================================================================== *)

Module SelectorExtras.
Import Selector.

(** For a system that does not have exactly one electron, with symmetry
    off, or with symmetry on and the point group the constant ['C1'],
    each entry point returns a class that is not symmetry-adapted:
    [rohf.ROHF] for spin > 0 and [hf.RHF] otherwise through [RHF],
    [rohf.ROHF] through [ROHF], [uhf.UHF] through [UHF]; the choice is
    the one made with symmetry off, and the arguments are forwarded. *)
Theorem trivial_symmetry_is_no_symmetry (e : entry) (mol : Mole)
    (args : list val) :
  nelectron mol ≠ 1 →
  symmetry mol = false ∨ is_C1 (groupname mol) = true →
  select e mol args
  = Instance
      (match e with
       | EntryRHF => if spin mol >? 0 then rohf_ROHF else hf_RHF
       | EntryROHF => rohf_ROHF
       | EntryUHF => uhf_UHF
       end) mol args
  ∧ inst_class (select e mol args)
    = inst_class (select e (with_symmetry false mol) args)
  ∧ symmetry_adapted (inst_class (select e mol args)) = false.
Proof.
  intros Hn Htriv. apply Z.eqb_neq in Hn.
  assert (negb (symmetry mol) || is_C1 (groupname mol) = true) as Hc.
  { destruct Htriv as [-> | ->]; [done|]. by rewrite orb_true_r. }
  destruct e; simpl; unfold UHF, RHF, ROHF; simpl; rewrite Hn, ?Hc; simpl;
    destruct (spin mol >? 0); done.
Qed.

Lemma trivial_symmetry_is_no_symmetry_witness :
  select EntryUHF Samples.chfclbr [VNum 1]
  = Instance uhf_UHF Samples.chfclbr [VNum 1].
Proof.
  refine (proj1 (trivial_symmetry_is_no_symmetry EntryUHF Samples.chfclbr
                   [VNum 1] _ _)).
  - discriminate.
  - right. reflexivity.
Defined.

(** Through [RHF], [ROHF] and [UHF] a symmetry-adapted class is returned
    exactly when the symmetry flag is on and either the system has one
    electron or the point group is not the constant ['C1']: never with
    the flag off. *)
Theorem symmetry_adapted_iff (e : entry) (mol : Mole) (args : list val) :
  symmetry_adapted (inst_class (select e mol args)) = true
  ↔ symmetry mol = true
    ∧ (nelectron mol = 1 ∨ is_C1 (groupname mol) = false).
Proof.
  destruct (Z.eqb_spec (nelectron mol) 1) as [H1|H1].
  - destruct e; simpl; unfold UHF, RHF, ROHF;
      rewrite (proj2 (Z.eqb_eq _ _) H1);
      destruct (symmetry mol); simpl; split; intros; try done;
      try tauto; by destruct H.
  - apply Z.eqb_neq in H1.
    destruct e; simpl; unfold UHF, RHF, ROHF; rewrite H1;
      destruct (symmetry mol), (is_C1 (groupname mol)),
        (spin mol >? 0); simpl; split; intros H; try done;
      try (split; [done|by right]);
      try (destruct H as [? [?|?]]; try done; apply Z.eqb_neq in H1; done).
Qed.

(** The positional arguments are forwarded to the constructor in the
    many-electron branches and dropped in the one-electron branches of
    [RHF], [ROHF], [UHF] and [DHF]; [X2C] always forwards them; [RKS],
    [ROKS] and [UKS] always drop them.  The molecule is always passed. *)
Theorem args_forwarding (mol : Mole) (args : list val) :
  (∀ e, inst_args (select e mol args)
        = if nelectron mol =? 1 then [] else args)
  ∧ inst_args (DHF mol args) = (if nelectron mol =? 1 then [] else args)
  ∧ inst_args (X2C mol args) = args
  ∧ inst_args (RKS mol args) = []
  ∧ inst_args (ROKS mol args) = []
  ∧ inst_args (UKS mol args) = []
  ∧ (∀ e, inst_mol (select e mol args) = mol)
  ∧ inst_mol (DHF mol args) = mol
  ∧ inst_mol (X2C mol args) = mol
  ∧ inst_mol (RKS mol args) = mol
  ∧ inst_mol (ROKS mol args) = mol
  ∧ inst_mol (UKS mol args) = mol.
Proof.
  repeat split; try intros e; try destruct e; simpl;
    unfold UHF, RHF, ROHF, DHF;
    destruct (nelectron mol =? 1), (symmetry mol), (is_C1 (groupname mol)),
      (spin mol >? 0); done.
Qed.

(** [RHF] and [ROHF] return the same thing exactly for the systems with
    one electron and for those with spin > 0; when they differ, [RHF]
    gives the closed-shell class and [ROHF] the open-shell class of the
    same module ([hf.RHF] and [rohf.ROHF], or [hf_symm.RHF] and
    [hf_symm.ROHF]). *)
Theorem RHF_ROHF_agree (mol : Mole) (args : list val) :
  (RHF mol args = ROHF mol args ↔ nelectron mol = 1 ∨ (spin mol > 0)%Z)
  ∧ (RHF mol args ≠ ROHF mol args →
     inst_class (RHF mol args) = hf_RHF
     ∧ inst_class (ROHF mol args) = rohf_ROHF
     ∨ inst_class (RHF mol args) = hf_symm_RHF
       ∧ inst_class (ROHF mol args) = hf_symm_ROHF).
Proof.
  unfold RHF, ROHF.
  destruct (Z.eqb_spec (nelectron mol) 1) as [H1|H1].
  { split; [split; [by left|done] | done]. }
  destruct (Z.gtb_spec (spin mol) 0) as [Hs|Hs].
  - split; [split; [right; lia|done] | done].
  - destruct (negb (symmetry mol) || is_C1 (groupname mol)).
    + split; [split; [discriminate | intros [?|?]; [done|lia]]|].
      intros _. by left.
    + split; [split; [discriminate | intros [?|?]; [done|lia]]|].
      intros _. by right.
Qed.

Lemma RHF_ROHF_agree_witness :
  RHF Samples.water_c2v [] ≠ ROHF Samples.water_c2v []
  ∧ (inst_class (RHF Samples.water_c2v []) = hf_RHF
     ∧ inst_class (ROHF Samples.water_c2v []) = rohf_ROHF
     ∨ inst_class (RHF Samples.water_c2v []) = hf_symm_RHF
       ∧ inst_class (ROHF Samples.water_c2v []) = hf_symm_ROHF).
Proof.
  split; [discriminate|].
  apply (proj2 (RHF_ROHF_agree Samples.water_c2v [])). discriminate.
Defined.

(** The spin of the molecule matters to [RHF] only through the test
    spin > 0 (a negative spin selects the closed-shell class, like spin
    0), and does not matter to [ROHF], [UHF], [DHF] and [X2C]. *)
Theorem spin_dependence (mol : Mole) (s : Z) (args : list val) :
  ((s >? 0) = (spin mol >? 0) →
   inst_class (RHF (with_spin s mol) args) = inst_class (RHF mol args))
  ∧ inst_class (ROHF (with_spin s mol) args) = inst_class (ROHF mol args)
  ∧ inst_class (UHF (with_spin s mol) args) = inst_class (UHF mol args)
  ∧ inst_class (DHF (with_spin s mol) args) = inst_class (DHF mol args)
  ∧ inst_class (X2C (with_spin s mol) args) = inst_class (X2C mol args).
Proof.
  unfold UHF, RHF, ROHF, DHF, X2C. simpl. repeat split.
  - intros ->.
    destruct (nelectron mol =? 1), (symmetry mol), (is_C1 (groupname mol)),
      (spin mol >? 0); done.
  - destruct (nelectron mol =? 1), (symmetry mol), (is_C1 (groupname mol));
      done.
  - destruct (nelectron mol =? 1), (symmetry mol), (is_C1 (groupname mol));
      done.
  - by destruct (nelectron mol =? 1).
Qed.

Lemma spin_dependence_witness :
  inst_class (RHF (with_spin (-2) Samples.water_c2v) [])
  = inst_class (RHF Samples.water_c2v []).
Proof.
  exact (proj1 (spin_dependence Samples.water_c2v (-2) []) eq_refl).
Defined.

(** A one-electron specialisation is returned by [RHF], [ROHF], [UHF]
    and [DHF] exactly for the systems with one electron; [X2C], [RKS],
    [ROKS] and [UKS] have no one-electron case and never return one. *)
Theorem one_electron_iff (mol : Mole) (args : list val) :
  (∀ e, one_electron (inst_class (select e mol args)) = true
        ↔ nelectron mol = 1)
  ∧ (one_electron (inst_class (DHF mol args)) = true ↔ nelectron mol = 1)
  ∧ one_electron (inst_class (X2C mol args)) = false
  ∧ one_electron (inst_class (RKS mol args)) = false
  ∧ one_electron (inst_class (ROKS mol args)) = false
  ∧ one_electron (inst_class (UKS mol args)) = false.
Proof.
  repeat split; try done; try destruct e; simpl; unfold UHF, RHF, ROHF, DHF;
    destruct (Z.eqb_spec (nelectron mol) 1);
    destruct (symmetry mol), (is_C1 (groupname mol)), (spin mol >? 0);
    simpl; done.
Qed.

(** The point group is compared with ['C1'] by identity: for a system
    that does not have exactly one electron, with symmetry on, whose
    group name is not the constant ['C1'] itself (even if it is a string
    that reads ['C1']), the symmetry-adapted class is returned. *)
Theorem group_name_compared_by_identity (e : entry) (mol : Mole)
    (args : list val) :
  nelectron mol ≠ 1 → symmetry mol = true →
  is_C1 (groupname mol) = false →
  symmetry_adapted (inst_class (select e mol args)) = true.
Proof.
  intros Hn Hs Hi. apply Z.eqb_neq in Hn.
  destruct e; simpl; unfold UHF, RHF, ROHF; rewrite Hn, Hs, Hi; simpl;
    destruct (spin mol >? 0); done.
Qed.

Lemma group_name_compared_by_identity_witness :
  text (groupname Samples.chfclbr_runtime_name) = "C1"%string
  ∧ is_C1 (groupname Samples.chfclbr_runtime_name) = false
  ∧ symmetry_adapted (inst_class (RHF Samples.chfclbr_runtime_name []))
    = true.
Proof.
  split; [reflexivity|]. split; [reflexivity|].
  apply (group_name_compared_by_identity EntryRHF
           Samples.chfclbr_runtime_name []).
  - discriminate.
  - reflexivity.
  - reflexivity.
Defined.

End SelectorExtras.

(* ===================================================================== *)
(** ** Reasoning about computations                                       *)
(* ===================================================================== *)

Local Close Scope Z_scope.

Lemma bind_ok {A B} (m : M A) (k : A → M B) w a w1 :
  m w = Ok a w1 → (m ≫= k) w = k a w1.
Proof. unfold mbind, M_bind. by intros ->. Qed.

Lemma bind_raise {A B} (m : M A) (k : A → M B) w e w1 :
  m w = Raise e w1 → (m ≫= k) w = Raise e w1.
Proof. unfold mbind, M_bind. by intros ->. Qed.

Lemma bind_inv {A B} (m : M A) (k : A → M B) w b w2 :
  (m ≫= k) w = Ok b w2 → ∃ a w1, m w = Ok a w1 ∧ k a w1 = Ok b w2.
Proof.
  unfold mbind, M_bind. destruct (m w) as [a w1|]; [|done]. eauto.
Qed.

Lemma ret_inv {A} (a b : A) w w1 :
  (mret a : M A) w = Ok b w1 → b = a ∧ w1 = w.
Proof. unfold mret, M_ret. by intros [= -> ->]. Qed.

Lemma fresh_None (h : gmap loc obj) : h !! fresh (dom h) = None.
Proof. apply not_elem_of_dom, is_fresh. Qed.

Lemma alloc_inv o w l w1 :
  alloc o w = Ok l w1 →
  heap w !! l = None ∧ w1 = World (<[l := o]> (heap w)) (trace w).
Proof. unfold alloc. intros [= <- <-]. split; [apply fresh_None | done]. Qed.

Lemma emit_inv ev w u w1 :
  emit ev w = Ok u w1 → w1 = World (heap w) (trace w ++ [ev]).
Proof. unfold emit. by intros [= <-]. Qed.

Lemma deref_inv l w o w1 :
  deref l w = Ok o w1 → heap w !! l = Some o ∧ w1 = w.
Proof. unfold deref. destruct (heap w !! l); [|done]. by intros [= -> ->]. Qed.

Lemma deref_ok l w o : heap w !! l = Some o → deref l w = Ok o w.
Proof. unfold deref. by intros ->. Qed.

Lemma getattr_inv l name w v w1 :
  getattr l name w = Ok v w1 →
  (∃ o, heap w !! l = Some o ∧ obj_dict o !! name = Some v) ∧ w1 = w.
Proof.
  unfold getattr. intros H. apply bind_inv in H as (o & w' & H1 & H2).
  apply deref_inv in H1 as [Ho ->].
  destruct (obj_dict o !! name) eqn:E; [|done].
  apply ret_inv in H2 as [-> ->]. eauto.
Qed.

Lemma getattr_ok l name w o v :
  heap w !! l = Some o → obj_dict o !! name = Some v →
  getattr l name w = Ok v w.
Proof.
  intros Ho Hv. unfold getattr. rewrite (bind_ok _ _ _ _ _ (deref_ok _ _ _ Ho)).
  by rewrite Hv.
Qed.

Lemma hasattr_inv l name w b w1 :
  hasattr l name w = Ok b w1 →
  (∃ o, heap w !! l = Some o ∧ b = bool_decide (is_Some (obj_dict o !! name)))
  ∧ w1 = w.
Proof.
  unfold hasattr. intros H. apply bind_inv in H as (o & w' & H1 & H2).
  apply deref_inv in H1 as [Ho ->]. apply ret_inv in H2 as [-> ->]. eauto.
Qed.

Lemma hasattr_ok l name w o :
  heap w !! l = Some o →
  hasattr l name w = Ok (bool_decide (is_Some (obj_dict o !! name))) w.
Proof.
  intros Ho. unfold hasattr. by rewrite (bind_ok _ _ _ _ _ (deref_ok _ _ _ Ho)).
Qed.

(** The object [o] with attribute [name] set to [v]. *)
Lemma setattr_inv l name v w u w1 :
  setattr l name v w = Ok u w1 →
  ∃ o, heap w !! l = Some o
       ∧ w1 = World (<[l := Obj (obj_class o) (<[name := v]> (obj_dict o))]>
                       (heap w)) (trace w).
Proof.
  unfold setattr. intros H. apply bind_inv in H as (o & w' & H1 & H2).
  apply deref_inv in H1 as [Ho ->]. unfold store in H2.
  injection H2 as <-. eauto.
Qed.

Lemma setattr_ok l name v w o :
  heap w !! l = Some o →
  setattr l name v w
  = Ok tt (World (<[l := Obj (obj_class o) (<[name := v]> (obj_dict o))]>
                    (heap w)) (trace w)).
Proof.
  intros Ho. unfold setattr.
  by rewrite (bind_ok _ _ _ _ _ (deref_ok _ _ _ Ho)).
Qed.

(** Lookups in a heap or dictionary built by insertions. *)
Ltac solve_lookup :=
  simpl;
  repeat first
    [ rewrite lookup_insert_eq
    | rewrite lookup_insert_ne by (done || congruence) ];
  first [ reflexivity | eassumption | done ].

(** Run the steps that cannot fail. *)
Ltac fwd :=
  unfold mbind, M_bind, emit, alloc, mret, M_ret;
  cbv beta iota zeta; cbn [heap trace obj_class obj_dict].

Ltac norm_trace :=
  repeat rewrite <- app_assoc; simpl.

Section PipelineFacts.

Context (scf : obj → list val → scf_result).
Context (from_dm : obj → val → val * val).
Context (aug_etb_for_dfbasis : val → string → Q → val).

Lemma density_fit_inv mf aux w l w1 :
  density_fit mf aux VNone w = Ok l w1 →
  ∃ o, heap w !! mf = Some o ∧ heap w !! l = None
       ∧ w1 = World (<[l := Obj (DFHF (obj_class o))
                             (<["auxbasis" := aux]> (obj_dict o))]> (heap w))
                    (trace w ++ [EvDecorate mf l]).
Proof.
  unfold density_fit, method_density_fit. intros H.
  apply bind_inv in H as (o & w' & H1 & H). apply deref_inv in H1 as [Ho ->].
  apply bind_inv in H as (l' & w' & H1 & H). apply alloc_inv in H1 as [Hl ->].
  apply bind_inv in H as (u & w' & H1 & H). apply emit_inv in H1 as ->.
  apply ret_inv in H as [-> ->]. eauto.
Qed.

Lemma density_fit_ok mf aux w o :
  heap w !! mf = Some o →
  density_fit mf aux VNone w
  = Ok (fresh (dom (heap w)))
       (World (<[fresh (dom (heap w)) :=
                   Obj (DFHF (obj_class o)) (<["auxbasis" := aux]> (obj_dict o))]>
                 (heap w))
              (trace w ++ [EvDecorate mf (fresh (dom (heap w)))])).
Proof.
  intros Ho. unfold density_fit, method_density_fit.
  by rewrite (bind_ok _ _ _ _ _ (deref_ok _ _ _ Ho)).
Qed.

Lemma newton_inv mf w l w1 :
  newton mf w = Ok l w1 →
  ∃ o, heap w !! mf = Some o ∧ heap w !! l = None
       ∧ w1 = World (<[l := Obj (NewtonAH (obj_class o)) (obj_dict o)]> (heap w))
                    (trace w ++ [EvDecorate mf l]).
Proof.
  unfold newton, newton_ah_newton. intros H.
  apply bind_inv in H as (o & w' & H1 & H). apply deref_inv in H1 as [Ho ->].
  apply bind_inv in H as (l' & w' & H1 & H). apply alloc_inv in H1 as [Hl ->].
  apply bind_inv in H as (u & w' & H1 & H). apply emit_inv in H1 as ->.
  apply ret_inv in H as [-> ->]. eauto.
Qed.

Lemma newton_ok mf w o :
  heap w !! mf = Some o →
  newton mf w
  = Ok (fresh (dom (heap w)))
       (World (<[fresh (dom (heap w)) :=
                   Obj (NewtonAH (obj_class o)) (obj_dict o)]> (heap w))
              (trace w ++ [EvDecorate mf (fresh (dom (heap w)))])).
Proof.
  intros Ho. unfold newton, newton_ah_newton.
  by rewrite (bind_ok _ _ _ _ _ (deref_ok _ _ _ Ho)).
Qed.

(** The [kernel] method of the class always returns on a live solver. *)
Lemma class_kernel_ok l args w self :
  heap w !! l = Some self →
  let r := scf self args in
  let t := fresh (dom (heap w)) in
  class_kernel scf l args w
  = Ok (r_e_tot r)
       (World (<[l := Obj (obj_class self) (solved_dict r t self)]>
                 (if builds_cache self
                  then <[t := Obj TensorClass ∅]> (heap w) else heap w))
              (trace w ++ EvSolve l self args
                 :: (if builds_cache self then [EvBuildCache l t] else []))).
Proof.
  intros Ho r t. unfold class_kernel.
  rewrite (bind_ok _ _ _ _ _ (deref_ok _ _ _ Ho)).
  unfold solved_dict, builds_cache. fold r.
  assert (Hlt : l ≠ t).
  { intros ->. unfold t in Ho. by rewrite fresh_None in Ho. }
  destruct (density_fitted (obj_class self) && negb (cache_populated self)).
  - fwd. fold t.
    repeat (erewrite setattr_ok by solve_lookup; fwd).
    unfold save_results. f_equal. f_equal.
    + rewrite !insert_insert_eq. done.
    + by norm_trace.
  - fwd.
    repeat (erewrite setattr_ok by solve_lookup; fwd).
    unfold save_results. f_equal. f_equal.
    rewrite !insert_insert_eq. done.
Qed.

Lemma call_kernel_class l args w self :
  heap w !! l = Some self → kernel_of_class self →
  call_kernel scf l args w
  = class_kernel scf l args (World (heap w) (trace w ++ [EvCall l self args])).
Proof.
  intros Ho Hk. unfold call_kernel.
  rewrite (bind_ok _ _ _ _ _ (deref_ok _ _ _ Ho)). fwd.
  unfold kernel_of_class in Hk. by rewrite Hk.
Qed.

Lemma call_kernel_inv l args w v w' :
  call_kernel scf l args w = Ok v w' →
  ∃ self, heap w !! l = Some self ∧
    ((kernel_of_class self ∧
      class_kernel scf l args (World (heap w) (trace w ++ [EvCall l self args]))
      = Ok v w')
     ∨ (∃ t ot, obj_dict self !! "kernel" = Some (VMfKernel t)
          ∧ heap w !! t = Some ot ∧ obj_dict ot !! "e_tot" = Some v
          ∧ w' = World (heap w)
                   (trace w ++ [EvCall l self args;
                                EvLog Warn t msg_no_second_kernel]))).
Proof.
  unfold call_kernel. intros H.
  apply bind_inv in H as (self & w1 & H1 & H). apply deref_inv in H1 as [Ho ->].
  exists self. split; [done|].
  apply bind_inv in H as (u & w1 & H1 & H). apply emit_inv in H1 as ->.
  destruct (obj_dict self !! "kernel") as [k|] eqn:Hk.
  - right. destruct k; try done. unfold mf_kernel in H.
    apply bind_inv in H as (u' & w1 & H1 & H). apply emit_inv in H1 as ->.
    apply getattr_inv in H as [(ot & Hot & Hv) ->]. simpl in *.
    exists mf, ot. repeat split; try done. by norm_trace.
  - left. done.
Qed.

Lemma setattrs_ok l kvs : ∀ w o,
  heap w !! l = Some o →
  setattrs l kvs w
  = Ok tt (World (<[l := Obj (obj_class o)
                         (foldl (λ d kv, <[kv.1 := kv.2]> d) (obj_dict o) kvs)]>
                    (heap w)) (trace w)).
Proof.
  induction kvs as [|[key v] kvs IH]; intros w o Ho; simpl.
  - destruct w as [h tr], o as [c d]; simpl in *.
    unfold mret, M_ret. by rewrite insert_id.
  - rewrite (bind_ok _ _ _ _ _ (setattr_ok _ _ _ _ _ Ho)).
    erewrite IH by solve_lookup. simpl. by rewrite insert_insert_eq.
Qed.

Lemma foldl_insert_union (kvs : list (string * val)) : ∀ d : gmap string val,
  NoDup kvs.*1 →
  foldl (λ d kv, <[kv.1 := kv.2]> d) d kvs = list_to_map kvs ∪ d.
Proof.
  induction kvs as [|[key v] kvs IH]; intros d Hnd; simpl.
  - by rewrite (left_id_L ∅ (∪)).
  - rewrite fmap_cons in Hnd. apply NoDup_cons in Hnd as [Hkey Hnd].
    rewrite IH by done.
    rewrite <- insert_union_l. symmetry. apply insert_union_r.
    by apply not_elem_of_list_to_map_1.
Qed.

(** Setting the keyword arguments one by one overlays them on the
    dictionary. *)
Lemma setattrs_kwargs l (kw : gmap string val) w o :
  heap w !! l = Some o →
  setattrs l (map_to_list kw) w
  = Ok tt (World (<[l := Obj (obj_class o) (kw ∪ obj_dict o)]> (heap w))
                 (trace w)).
Proof.
  intros Ho. rewrite (setattrs_ok _ _ _ _ Ho).
  rewrite foldl_insert_union by apply NoDup_fst_map_to_list.
  by rewrite list_to_map_to_list.
Qed.

Lemma gen_grid_Grids_inv mol w g w1 :
  gen_grid_Grids mol w = Ok g w1 →
  heap w !! g = None
  ∧ w1 = World (<[g := Obj GridsClass {["mol" := mol]}]> (heap w))
               (trace w ++ [EvGrids g]).
Proof.
  unfold gen_grid_Grids. intros H.
  apply bind_inv in H as (l & w' & H1 & H). apply alloc_inv in H1 as [Hl ->].
  apply bind_inv in H as (u & w' & H1 & H). apply emit_inv in H1 as ->.
  apply ret_inv in H as [-> ->]. eauto.
Qed.

(** [copy.copy] adds at most one object and one event, and leaves the
    objects that exist as they are. *)
Lemma copy_copy_inv v w v' w1 :
  copy_copy v w = Ok v' w1 →
  ∃ evs, trace w1 = trace w ++ evs
    ∧ (evs = [] ∨ ∃ l l', evs = [EvCopy l l'])
    ∧ (∀ l x, heap w !! l = Some x → heap w1 !! l = Some x).
Proof.
  destruct v; simpl; intros H;
    try (apply ret_inv in H as [-> ->]; exists []; rewrite app_nil_r; by eauto).
  apply bind_inv in H as (o & w' & H1 & H). apply deref_inv in H1 as [Ho ->].
  apply bind_inv in H as (l' & w' & H1 & H). apply alloc_inv in H1 as [Hl ->].
  apply bind_inv in H as (u & w' & H1 & H). apply emit_inv in H1 as ->.
  apply ret_inv in H as [-> ->]. simpl.
  exists [EvCopy l l']. split; [done|]. split; [eauto|].
  intros k x Hk. rewrite lookup_insert_ne; [done|]. intros ->. congruence.
Qed.

Lemma build_refined_inv mf aux kw w mf1 ap w1 :
  build_refined mf aux kw w = Ok (mf1, ap) w1 →
  ∃ o n d1 evs,
    heap w !! mf = Some o
    ∧ heap w1 !! mf = Some o
    ∧ mf1 ≠ mf ∧ n ≠ mf
    ∧ heap w1 !! mf1 = Some (Obj (DFHF (NewtonAH (obj_class o))) d1)
    ∧ trace w1 = trace w ++ EvDecorate mf n :: EvDecorate n mf1 :: evs
    ∧ grid_steps evs = evs
    ∧ (∀ k, k ≠ "grids"%string → k ≠ "_numint"%string →
         d1 !! k = (kw ∪ <["auxbasis" := aux]> (obj_dict o)) !! k)
    ∧ match ap with
      | None =>
          obj_dict o !! "grids" = None ∧ evs = []
          ∧ d1 = kw ∪ <["auxbasis" := aux]> (obj_dict o)
      | Some (g, ni) =>
          is_Some (obj_dict o !! "grids")
          ∧ d1 !! "grids" = Some (VRef g) ∧ d1 !! "_numint" = Some ni
          ∧ (∃ evs', evs = EvGrids g :: evs')
      end.
Proof.
  unfold build_refined. intros H.
  apply bind_inv in H as (n & w' & Hn & H).
  apply newton_inv in Hn as (o & Hmf & Hn & ->).
  assert (n ≠ mf) as Hnmf by (intros ->; congruence).
  apply bind_inv in H as (l & w' & Hl & H).
  apply density_fit_inv in Hl as (o' & Ho' & Hl & ->).
  simpl in Ho', Hl. rewrite lookup_insert_eq in Ho'. injection Ho' as <-.
  apply lookup_insert_None in Hl as [Hl Hnl].
  assert (l ≠ mf) as Hlmf by (intros ->; congruence).
  apply bind_inv in H as (u & w' & Hkw & H).
  erewrite setattrs_kwargs in Hkw by solve_lookup. injection Hkw as _ <-.
  cbn [heap trace obj_class obj_dict] in H. rewrite insert_insert_eq in H.
  apply bind_inv in H as (b & w' & Hb & H).
  apply hasattr_inv in Hb as [(o' & Ho' & ->) ->].
  simpl in Ho'. rewrite !lookup_insert_ne in Ho' by done.
  assert (o' = o) as -> by congruence. clear Ho'.
  exists o, n.
  destruct (bool_decide (is_Some (obj_dict o !! "grids"))) eqn:Hg.
  - apply bool_decide_eq_true in Hg.
    apply bind_inv in H as (mol & w' & Hmol & H).
    apply getattr_inv in Hmol as [_ ->].
    apply bind_inv in H as (g & w' & Hgr & H).
    apply gen_grid_Grids_inv in Hgr as [Hgf ->]. simpl in Hgf.
    apply lookup_insert_None in Hgf as [Hgf Hgl].
    apply lookup_insert_None in Hgf as [Hgf Hgn].
    assert (g ≠ mf) as Hgmf by (intros ->; congruence).
    apply bind_inv in H as (u1 & w' & Hs & H).
    apply setattr_inv in Hs as (og & Hog & ->). simpl in Hog.
    rewrite lookup_insert_eq in Hog. injection Hog as <-.
    apply bind_inv in H as (u2 & w' & Hs & H).
    apply setattr_inv in Hs as (og & Hog & ->). simpl in Hog.
    rewrite lookup_insert_eq in Hog. injection Hog as <-.
    apply bind_inv in H as (u3 & w' & Hs & H).
    apply setattr_inv in Hs as (ol & Hol & ->). simpl in Hol.
    rewrite !lookup_insert_ne, lookup_insert_eq in Hol by done.
    injection Hol as <-.
    apply bind_inv in H as (ni & w' & Hni & H).
    apply getattr_inv in Hni as [_ ->].
    apply bind_inv in H as (ni' & w' & Hcp & H).
    apply copy_copy_inv in Hcp as (evs & Htr & Hevs & Hframe).
    apply bind_inv in H as (u4 & w'' & Hs & H).
    apply setattr_inv in Hs as (ol & Hol & ->).
    apply ret_inv in H as [[= -> ->] ->].
    cbn [heap trace obj_class obj_dict] in *.
    erewrite Hframe in Hol by solve_lookup. injection Hol as <-. simpl.
    eexists _, (EvGrids g :: evs). split; [done|].
    split. { rewrite lookup_insert_ne by done. apply Hframe. solve_lookup. }
    split; [done|]. split; [done|].
    split. { by rewrite lookup_insert_eq. }
    split. { rewrite Htr. by norm_trace. }
    split. { unfold grid_steps. simpl. f_equal.
             destruct Hevs as [->|(? & ? & ->)]; done. }
    split. { intros k Hk1 Hk2. by rewrite !lookup_insert_ne. }
    split; [done|]. split. { by rewrite lookup_insert_ne, lookup_insert_eq. }
    split. { by rewrite lookup_insert_eq. }
    eauto.
  - apply bool_decide_eq_false in Hg.
    apply ret_inv in H as [[= -> ->] ->]. simpl.
    eexists _, []. split; [done|].
    split. { solve_lookup. }
    split; [done|]. split; [done|].
    split. { solve_lookup. }
    split. { by norm_trace. }
    split; [done|]. split; [done|].
    split. { by apply eq_None_not_Some. }
    done.
Qed.

(** What one [kernel] invocation does: it adds the call and events that
    are neither calls, decorations nor grid steps; it touches the callee
    only; and when the [kernel] is that of the class it saves the results
    of the iteration. *)
Lemma call_kernel_spec l args w v w' :
  call_kernel scf l args w = Ok v w' →
  ∃ self o' evs,
    heap w !! l = Some self
    ∧ trace w' = trace w ++ EvCall l self args :: evs
    ∧ kernel_calls evs = [] ∧ decorations evs = [] ∧ grid_steps evs = []
    ∧ (∀ lv t m, (lv, t, m) ∈ logs evs → lv = Warn)
    ∧ heap w' !! l = Some o' ∧ obj_class o' = obj_class self
    ∧ (∀ k x, k ≠ l → heap w !! k = Some x → heap w' !! k = Some x)
    ∧ (kernel_of_class self →
         solves evs = [(l, self, args)] ∧ v = r_e_tot (scf self args)
         ∧ ∃ t, heap w !! t = None
             ∧ obj_dict o' = solved_dict (scf self args) t self
             ∧ cache_builds evs = if builds_cache self then [(l, t)] else [])
    ∧ (¬ kernel_of_class self →
         o' = self ∧ solves evs = [] ∧ cache_builds evs = []).
Proof.
  intros H. apply call_kernel_inv in H as (self & Hself & [[Hk H]|H]).
  - erewrite class_kernel_ok in H by (simpl; exact Hself).
    injection H as Hv <-. cbn [heap trace].
    set (t := fresh (dom (heap w))).
    assert (heap w !! t = None) as Ht by apply fresh_None.
    assert (t ≠ l) as Htl by (intros E; rewrite E in Ht; congruence).
    exists self, (Obj (obj_class self) (solved_dict (scf self args) t self)),
      (EvSolve l self args :: if builds_cache self then [EvBuildCache l t] else []).
    split; [done|]. split. { by norm_trace. }
    split. { by destruct (builds_cache self). }
    split. { by destruct (builds_cache self). }
    split. { by destruct (builds_cache self). }
    split. { intros lv t' m. destruct (builds_cache self); simpl; by intros ?%elem_of_nil. }
    split. { by rewrite lookup_insert_eq. }
    split; [done|].
    split. { intros k x Hkl Hkx. rewrite lookup_insert_ne by done.
             destruct (builds_cache self); [|done].
             rewrite lookup_insert_ne; [done|]. intros E. rewrite E in Ht. congruence. }
    split.
    + intros _. split. { by destruct (builds_cache self). }
      split; [done|]. exists t. split; [done|]. split; [done|].
      by destruct (builds_cache self).
    + intros Hnk. by destruct Hnk.
  - destruct H as (t & ot & Hker & Hot & Hv & ->). cbn [heap trace].
    exists self, self, [EvLog Warn t msg_no_second_kernel].
    split; [done|]. split; [done|]. split; [done|]. split; [done|].
    split; [done|].
    split. { intros lv t' m Hin. simpl in Hin.
             apply list_elem_of_singleton in Hin. congruence. }
    split; [done|]. split; [done|]. split; [done|].
    split.
    + unfold kernel_of_class. intros Hk. congruence.
    + done.
Qed.

Lemma not_builds_populated self :
  density_fitted (obj_class self) = true → builds_cache self = false →
  ∃ v, obj_dict self !! "_cderi" = Some v ∧ v ≠ VNone.
Proof.
  unfold builds_cache, cache_populated. intros -> H. simpl in H.
  destruct (obj_dict self !! "_cderi") as [v|]; [|done].
  exists v. split; [done|]. by destruct v.
Qed.

Lemma save_results_other r d k :
  k ≠ "converged"%string → k ≠ "e_tot"%string → k ≠ "mo_energy"%string →
  k ≠ "mo_coeff"%string → k ≠ "mo_occ"%string →
  save_results r d !! k = d !! k.
Proof. intros. unfold save_results. by rewrite !lookup_insert_ne. Qed.

Lemma solved_dict_results r t self :
  solved_dict r t self !! "converged" = Some (VBool (r_converged r))
  ∧ solved_dict r t self !! "e_tot" = Some (r_e_tot r)
  ∧ solved_dict r t self !! "mo_energy" = Some (r_mo_energy r)
  ∧ solved_dict r t self !! "mo_coeff" = Some (r_mo_coeff r)
  ∧ solved_dict r t self !! "mo_occ" = Some (r_mo_occ r).
Proof. unfold solved_dict, save_results. repeat split; solve_lookup. Qed.

Lemma solved_dict_cderi r t self :
  solved_dict r t self !! "_cderi"
  = if builds_cache self then Some (VRef t) else obj_dict self !! "_cderi".
Proof.
  unfold solved_dict. rewrite save_results_other by done.
  destruct (builds_cache self); solve_lookup.
Qed.

Lemma solved_dict_naoaux r t self :
  solved_dict r t self !! "_naoaux"
  = if builds_cache self then Some (r_naoaux r) else obj_dict self !! "_naoaux".
Proof.
  unfold solved_dict. rewrite save_results_other by done.
  destruct (builds_cache self); solve_lookup.
Qed.

(** The warm-start preparation touches seven attributes only. *)
Lemma warm_start_dict_other aux ap d k :
  k ≠ "auxbasis"%string → k ≠ "conv_tol"%string → k ≠ "conv_tol_grad"%string →
  k ≠ "level_shift"%string → k ≠ "grids"%string → k ≠ "_numint"%string →
  k ≠ "small_rho_cutoff"%string →
  warm_start_dict aux ap d !! k = d !! k.
Proof.
  intros. unfold warm_start_dict.
  destruct (d !! "grids"), ap as [[??]|], (d !! "level_shift") as [ls|];
    try destruct (eq_zero ls); by rewrite !lookup_insert_ne.
Qed.

Lemma warm_start_inv mf mf1 ap aux w mf0 c occ w' o o1 :
  heap w !! mf = Some o → heap w !! mf1 = Some o1 → mf1 ≠ mf →
  warm_start scf mf mf1 ap aux w = Ok (mf0, c, occ) w' →
  let self0 := Obj (DFHF (obj_class o)) (warm_start_dict aux ap (obj_dict o)) in
  ∃ o0 cv nv evs0,
    heap w !! mf0 = None
    ∧ is_Some (obj_dict o !! "level_shift")
    ∧ trace w' = trace w ++
        [EvLog Note mf msg_guess_rule; EvLog Note mf msg_guess_begin;
         EvLog Note mf msg_guess_rule; EvDecorate mf mf0;
         EvCall mf0 self0 []] ++ evs0 ++
        [EvLog Note mf msg_end_rule; EvLog Note mf msg_guess_end;
         EvLog Note mf msg_end_rule]
    ∧ kernel_calls evs0 = [] ∧ decorations evs0 = [] ∧ grid_steps evs0 = []
    ∧ heap w' !! mf = Some o
    ∧ heap w' !! mf1
      = Some (Obj (obj_class o1)
                (<["_naoaux" := nv]> (<["_cderi" := cv]> (obj_dict o1))))
    ∧ heap w' !! mf0 = Some o0
    ∧ obj_dict o0 !! "_cderi" = Some cv
    ∧ obj_dict o0 !! "_naoaux" = Some nv
    ∧ obj_dict o0 !! "mo_coeff" = Some c
    ∧ obj_dict o0 !! "mo_occ" = Some occ
    ∧ (kernel_of_class o →
         solves evs0 = [(mf0, self0, [])]
         ∧ c = r_mo_coeff (scf self0 []) ∧ occ = r_mo_occ (scf self0 [])
         ∧ cv ≠ VNone
         ∧ ∀ s t, (s, t) ∈ cache_builds evs0 →
             s = mf0 ∧ cv = VRef t ∧ heap w !! t = None)
    ∧ (¬ kernel_of_class o → solves evs0 = [] ∧ cache_builds evs0 = []).
Proof.
  intros Hmf Hmf1 Hne H self0. unfold warm_start in H.
  apply bind_inv in H as (u1 & w1 & H1 & H). apply emit_inv in H1 as ->.
  apply bind_inv in H as (u2 & w1 & H1 & H). apply emit_inv in H1 as ->.
  apply bind_inv in H as (u3 & w1 & H1 & H). apply emit_inv in H1 as ->.
  apply bind_inv in H as (l & w1 & H1 & H).
  apply density_fit_inv in H1 as (o' & Ho' & Hl & ->). simpl in Ho', Hl.
  assert (o' = o) as -> by congruence. clear Ho'.
  assert (l ≠ mf) as Hlmf by (intros ->; congruence).
  assert (l ≠ mf1) as Hlmf1 by (intros ->; congruence).
  apply bind_inv in H as (u4 & w1 & H1 & H).
  apply setattr_inv in H1 as (ol & Hol & ->). simpl in Hol.
  rewrite lookup_insert_eq in Hol. injection Hol as <-.
  apply bind_inv in H as (u5 & w1 & H1 & H).
  apply setattr_inv in H1 as (ol & Hol & ->). simpl in Hol.
  rewrite lookup_insert_eq in Hol. injection Hol as <-.
  cbn [heap trace obj_class obj_dict] in H. rewrite !insert_insert_eq in H.
  rewrite <- !app_assoc in H. cbn [app] in H.
  set (tr := trace w ++ [EvLog Note mf msg_guess_rule;
                         EvLog Note mf msg_guess_begin;
                         EvLog Note mf msg_guess_rule; EvDecorate mf l]) in *.
  apply bind_inv in H as (ls & w1 & H1 & H).
  apply getattr_inv in H1 as [(ol & Hol & Hls) ->]. simpl in Hol.
  rewrite lookup_insert_eq in Hol. injection Hol as <-. simpl in Hls.
  rewrite !lookup_insert_ne in Hls by done.
  apply bind_inv in H as (u6 & w1 & H1 & H).
  apply bind_inv in H as (hg & w2 & H2 & H).
  apply bind_inv in H as (u7 & w3 & H3 & H).
  assert (w3 = World (<[l := Obj (DFHF (obj_class o))
                                (warm_start_dict aux ap (obj_dict o))]> (heap w))
                     tr) as ->.
  { unfold warm_start_dict. rewrite Hls.
    assert (w1 = World (<[l := Obj (DFHF (obj_class o))
              (if eq_zero ls
               then <["level_shift" := VNum (3 # 10)]>
                      (<["conv_tol_grad" := VNum (1 # 2)]>
                         (<["conv_tol" := VNum (1 # 4)]>
                            (<["auxbasis" := aux]> (obj_dict o))))
               else <["conv_tol_grad" := VNum (1 # 2)]>
                      (<["conv_tol" := VNum (1 # 4)]>
                         (<["auxbasis" := aux]> (obj_dict o))))]> (heap w)) tr)
      as ->.
    { destruct (eq_zero ls).
      - apply setattr_inv in H1 as (ol & Hol & ->). simpl in Hol.
        rewrite lookup_insert_eq in Hol. injection Hol as <-. simpl.
        by rewrite insert_insert_eq.
      - by apply ret_inv in H1 as [_ ->]. }
    apply hasattr_inv in H2 as [(o' & Ho' & ->) ->]. simpl in Ho'.
    rewrite lookup_insert_ne in Ho' by done.
    assert (o' = o) as -> by congruence. clear Ho'.
    destruct (obj_dict o !! "grids") as [gv|] eqn:Hgv.
    - rewrite bool_decide_eq_true_2 in H3 by eauto.
      destruct ap as [[g ni]|]; [|done].
      apply bind_inv in H3 as (u8 & w1 & H1' & H3).
      apply setattr_inv in H1' as (ol & Hol & ->). simpl in Hol.
      rewrite lookup_insert_eq in Hol. injection Hol as <-.
      apply bind_inv in H3 as (u9 & w1 & H1' & H3).
      apply setattr_inv in H1' as (ol & Hol & ->). simpl in Hol.
      rewrite lookup_insert_eq in Hol. injection Hol as <-.
      apply setattr_inv in H3 as (ol & Hol & ->). simpl in Hol.
      rewrite lookup_insert_eq in Hol. injection Hol as <-. simpl.
      by rewrite !insert_insert_eq.
    - rewrite bool_decide_eq_false_2 in H3 by (by intros [? ?]).
      apply ret_inv in H3 as [_ ->]. by destruct ap as [[??]|]. }
  clear H1 H2 H3 w1 w2 u6 u7 hg.
  fold self0 in H.
  apply bind_inv in H as (e & w1 & H1 & H).
  apply call_kernel_spec in H1
    as (self & o0 & evs0 & Hself & Htr & Hc & Hd & Hg & Hlog & Ho0 & Hcls
        & Hframe & Hcl & Hsh).
  cbn [heap trace] in Hself, Htr, Hframe, Hcl.
  rewrite lookup_insert_eq in Hself. injection Hself as <-.
  assert (heap w1 !! mf = Some o) as Hmf'.
  { apply Hframe; [done|]. by rewrite lookup_insert_ne. }
  assert (heap w1 !! mf1 = Some o1) as Hmf1'.
  { apply Hframe; [done|]. by rewrite lookup_insert_ne. }
  apply bind_inv in H as (cv & w2 & H1 & H).
  apply getattr_inv in H1 as [(ol & Hol & Hcv) ->].
  assert (ol = o0) as -> by congruence. clear Hol.
  apply bind_inv in H as (u8 & w2 & H1 & H).
  apply setattr_inv in H1 as (ol & Hol & ->).
  assert (ol = o1) as -> by congruence. clear Hol.
  apply bind_inv in H as (nv & w2 & H1 & H).
  apply getattr_inv in H1 as [(ol & Hol & Hnv) ->]. simpl in Hol.
  rewrite lookup_insert_ne in Hol by done.
  assert (ol = o0) as -> by congruence. clear Hol.
  apply bind_inv in H as (u9 & w2 & H1 & H).
  apply setattr_inv in H1 as (ol & Hol & ->). simpl in Hol.
  rewrite lookup_insert_eq in Hol. injection Hol as <-.
  cbn [heap trace obj_class obj_dict] in H. rewrite insert_insert_eq in H.
  apply bind_inv in H as (c' & w2 & H1 & H).
  apply getattr_inv in H1 as [(ol & Hol & Hc') ->]. simpl in Hol.
  rewrite lookup_insert_ne in Hol by done.
  assert (ol = o0) as -> by congruence. clear Hol.
  apply bind_inv in H as (occ' & w2 & H1 & H).
  apply getattr_inv in H1 as [(ol & Hol & Hocc') ->]. simpl in Hol.
  rewrite lookup_insert_ne in Hol by done.
  assert (ol = o0) as -> by congruence. clear Hol.
  apply bind_inv in H as (u10 & w2 & H1 & H). apply emit_inv in H1 as ->.
  apply bind_inv in H as (u11 & w2 & H1 & H). apply emit_inv in H1 as ->.
  apply bind_inv in H as (u12 & w2 & H1 & H). apply emit_inv in H1 as ->.
  apply ret_inv in H as [[= -> -> ->] ->]. cbn [heap trace].
  assert (Hkeq : kernel_of_class self0 ↔ kernel_of_class o).
  { unfold kernel_of_class, self0. simpl.
    by rewrite warm_start_dict_other. }
  exists o0, cv, nv, evs0.
  split; [done|]. split; [eauto|].
  split. { rewrite Htr. unfold tr. by norm_trace. }
  split; [done|]. split; [done|]. split; [done|].
  split. { by rewrite lookup_insert_ne. }
  split. { by rewrite lookup_insert_eq. }
  split. { by rewrite lookup_insert_ne. }
  split; [done|]. split; [done|]. split; [done|]. split; [done|].
  split.
  - intros Hk. apply Hkeq in Hk.
    destruct (Hcl Hk) as (Hsol & _ & t & Ht & Hdict & Hbuilds).
    pose proof (solved_dict_results (scf self0 []) t self0)
      as (_ & _ & _ & Hrc & Hro).
    rewrite <- Hdict in Hrc, Hro.
    pose proof (solved_dict_cderi (scf self0 []) t self0) as Hcd.
    rewrite <- Hdict, Hcv in Hcd.
    apply lookup_insert_None in Ht as [Ht _].
    split; [done|]. split; [congruence|]. split; [congruence|].
    destruct (builds_cache self0) eqn:Hb.
    + split; [congruence|]. intros s t' Hin. rewrite Hbuilds in Hin.
      apply list_elem_of_singleton in Hin. injection Hin as -> ->.
      split; [done|]. split; [congruence|done].
    + split.
      * destruct (not_builds_populated self0 eq_refl Hb) as (v & Hv & Hne').
        congruence.
      * intros s t' Hin. rewrite Hbuilds in Hin. by apply elem_of_nil in Hin.
  - intros Hnk. apply Hsh. by rewrite Hkeq.
Qed.

Lemma refine_and_finalize_inv mf mf1 c occ w r w' o self1 :
  heap w !! mf = Some o → heap w !! mf1 = Some self1 → mf1 ≠ mf →
  refine_and_finalize scf mf mf1 c occ w = Ok r w' →
  ∃ o1 evs vc ve vme vmc vmo,
    r = mf
    ∧ trace w' = trace w ++ EvCall mf1 self1 [c; occ] :: evs
    ∧ kernel_calls evs = [] ∧ decorations evs = [] ∧ grid_steps evs = []
    ∧ (∀ lv t m, (lv, t, m) ∈ logs evs → lv = Warn)
    ∧ heap w' !! mf1 = Some o1 ∧ obj_class o1 = obj_class self1
    ∧ obj_dict o1 !! "converged" = Some vc
    ∧ obj_dict o1 !! "e_tot" = Some ve
    ∧ obj_dict o1 !! "mo_energy" = Some vme
    ∧ obj_dict o1 !! "mo_coeff" = Some vmc
    ∧ obj_dict o1 !! "mo_occ" = Some vmo
    ∧ heap w' !! mf
      = Some (Obj (obj_class o)
                (finalized_dict mf vc ve vme vmc vmo (obj_dict o)))
    ∧ (∀ k x, k ≠ mf → k ≠ mf1 → heap w !! k = Some x → heap w' !! k = Some x)
    ∧ (builds_cache self1 = false → cache_builds evs = [])
    ∧ (kernel_of_class self1 →
         let r1 := scf self1 [c; occ] in
         solves evs = [(mf1, self1, [c; occ])]
         ∧ vc = VBool (r_converged r1) ∧ ve = r_e_tot r1
         ∧ vme = r_mo_energy r1 ∧ vmc = r_mo_coeff r1 ∧ vmo = r_mo_occ r1)
    ∧ (¬ kernel_of_class self1 → solves evs = [] ∧ cache_builds evs = []).
Proof.
  intros Hmf Hmf1 Hne H. unfold refine_and_finalize in H.
  apply bind_inv in H as (e & w1 & H1 & H).
  apply call_kernel_spec in H1
    as (self & o1 & evs & Hself & Htr & Hc & Hd & Hg & Hlog & Ho1 & Hcls
        & Hframe & Hcl & Hsh).
  assert (self = self1) as -> by congruence. clear Hself.
  assert (heap w1 !! mf = Some o) as Hmf' by (by apply Hframe).
  apply bind_inv in H as (vc & w2 & H1 & H).
  apply getattr_inv in H1 as [(ol & Hol & Hvc) ->].
  assert (ol = o1) as -> by congruence. clear Hol.
  apply bind_inv in H as (u1 & w2 & H1 & H).
  apply setattr_inv in H1 as (ol & Hol & ->).
  assert (ol = o) as -> by congruence. clear Hol.
  apply bind_inv in H as (ve & w2 & H1 & H).
  apply getattr_inv in H1 as [(ol & Hol & Hve) ->]. simpl in Hol.
  rewrite lookup_insert_ne in Hol by done.
  assert (ol = o1) as -> by congruence. clear Hol.
  apply bind_inv in H as (u2 & w2 & H1 & H).
  apply setattr_inv in H1 as (ol & Hol & ->). simpl in Hol.
  rewrite lookup_insert_eq in Hol. injection Hol as <-.
  cbn [heap trace obj_class obj_dict] in H. rewrite insert_insert_eq in H.
  apply bind_inv in H as (vme & w2 & H1 & H).
  apply getattr_inv in H1 as [(ol & Hol & Hvme) ->]. simpl in Hol.
  rewrite lookup_insert_ne in Hol by done.
  assert (ol = o1) as -> by congruence. clear Hol.
  apply bind_inv in H as (u3 & w2 & H1 & H).
  apply setattr_inv in H1 as (ol & Hol & ->). simpl in Hol.
  rewrite lookup_insert_eq in Hol. injection Hol as <-.
  cbn [heap trace obj_class obj_dict] in H. rewrite insert_insert_eq in H.
  apply bind_inv in H as (vmc & w2 & H1 & H).
  apply getattr_inv in H1 as [(ol & Hol & Hvmc) ->]. simpl in Hol.
  rewrite lookup_insert_ne in Hol by done.
  assert (ol = o1) as -> by congruence. clear Hol.
  apply bind_inv in H as (u4 & w2 & H1 & H).
  apply setattr_inv in H1 as (ol & Hol & ->). simpl in Hol.
  rewrite lookup_insert_eq in Hol. injection Hol as <-.
  cbn [heap trace obj_class obj_dict] in H. rewrite insert_insert_eq in H.
  apply bind_inv in H as (vmo & w2 & H1 & H).
  apply getattr_inv in H1 as [(ol & Hol & Hvmo) ->]. simpl in Hol.
  rewrite lookup_insert_ne in Hol by done.
  assert (ol = o1) as -> by congruence. clear Hol.
  apply bind_inv in H as (u5 & w2 & H1 & H).
  apply setattr_inv in H1 as (ol & Hol & ->). simpl in Hol.
  rewrite lookup_insert_eq in Hol. injection Hol as <-.
  cbn [heap trace obj_class obj_dict] in H. rewrite insert_insert_eq in H.
  apply bind_inv in H as (u6 & w2 & H1 & H).
  apply setattr_inv in H1 as (ol & Hol & ->). simpl in Hol.
  rewrite lookup_insert_eq in Hol. injection Hol as <-.
  cbn [heap trace obj_class obj_dict] in H. rewrite insert_insert_eq in H.
  apply ret_inv in H as [-> ->]. cbn [heap trace].
  exists o1, evs, vc, ve, vme, vmc, vmo.
  split; [done|]. split; [done|]. split; [done|]. split; [done|].
  split; [done|]. split; [done|].
  split. { by rewrite lookup_insert_ne. }
  split; [done|]. split; [done|]. split; [done|]. split; [done|].
  split; [done|]. split; [done|].
  split. { by rewrite lookup_insert_eq. }
  split. { intros k x Hk1 Hk2 Hkx. rewrite lookup_insert_ne by done.
           by apply Hframe. }
  split.
  { intros Hb. destruct (decide (kernel_of_class self1)) as [Hk|Hk].
    - destruct (Hcl Hk) as (_ & _ & t & _ & _ & Hbs). by rewrite Hb in Hbs.
    - by destruct (Hsh Hk) as (_ & _ & ?). }
  split.
  - intros Hk. destruct (Hcl Hk) as (Hsol & _ & t & Ht & Hdict & Hbuilds).
    pose proof (solved_dict_results (scf self1 [c; occ]) t self1)
      as (R1 & R2 & R3 & R4 & R5).
    rewrite <- Hdict in R1, R2, R3, R4, R5.
    repeat split; congruence.
  - intros Hk. by destruct (Hsh Hk) as (_ & ? & ?).
Qed.

Lemma choose_auxbasis_inv mf aux w aux' w1 :
  choose_auxbasis aug_etb_for_dfbasis mf aux w = Ok aux' w1 → w1 = w.
Proof.
  unfold choose_auxbasis. destruct (is_None aux).
  - intros H. apply bind_inv in H as (mol & w2 & H1 & H).
    apply getattr_inv in H1 as [_ ->]. by apply ret_inv in H as [_ ->].
  - intros H. by apply ret_inv in H as [_ ->].
Qed.

Lemma initial_guess_inv mf mf1 ap mc mo dm aux w c occ w' o1 :
  heap w !! mf1 = Some o1 →
  initial_guess scf from_dm mf mf1 ap mc mo dm aux w = Ok (c, occ) w' →
  (is_None dm = false ∧ w' = w ∧ (c, occ) = from_dm o1 dm)
  ∨ (is_None dm = true ∧ is_None mc = false ∧ is_None mo = false
     ∧ w' = w ∧ c = mc ∧ occ = mo)
  ∨ (is_None dm = true ∧ is_None mc || is_None mo = true
     ∧ ∃ mf0, warm_start scf mf mf1 ap aux w = Ok (mf0, c, occ) w').
Proof.
  intros Hmf1. unfold initial_guess. destruct (is_None dm); simpl.
  - destruct (is_None mc || is_None mo) eqn:E.
    + intros H. right. right. split; [done|]. split; [done|].
      apply bind_inv in H as ([[mf0 c'] occ'] & w1 & H1 & H).
      apply ret_inv in H as [[= -> ->] ->]. eauto.
    + intros H. apply ret_inv in H as [[= -> ->] ->].
      apply orb_false_elim in E as [-> ->]. right. left. done.
  - intros H. left. apply bind_inv in H as (self & w1 & H1 & H).
    apply deref_inv in H1 as [Hs ->]. apply ret_inv in H as [Hp ->].
    assert (self = o1) as -> by congruence. done.
Qed.

(** Every successful run of [fast_newton], phase by phase: the base
    object [o]; the Newton handle [n] and the refined handle [mf1]; the
    events of grid coarsening [gevs], of the warm start [wevs] and of the
    refinement [revs]; the seed [c], [occ]; the dictionary [sd] of the
    refined solver when its [kernel] is called; the five results copied
    onto [mf]. *)
Lemma fast_newton_inv mf mc mo dm aux kw w r w' :
  fast_newton scf from_dm aug_etb_for_dfbasis mf mc mo dm aux kw w = Ok r w' →
  ∃ aux' o n mf1 ap d1 gevs wevs revs c occ sd o1 vc ve vme vmc vmo,
    let self1 := Obj (DFHF (NewtonAH (obj_class o))) sd in
    r = mf
    ∧ choose_auxbasis aug_etb_for_dfbasis mf aux w = Ok aux' w
    ∧ heap w !! mf = Some o
    ∧ mf1 ≠ mf ∧ n ≠ mf
    ∧ trace w' = trace w ++ EvDecorate mf n :: EvDecorate n mf1 ::
                   gevs ++ wevs ++ EvCall mf1 self1 [c; occ] :: revs
    ∧ grid_steps gevs = gevs
    ∧ (∀ k, k ≠ "grids"%string → k ≠ "_numint"%string →
         d1 !! k = (kw ∪ <["auxbasis" := aux']> (obj_dict o)) !! k)
    ∧ match ap with
      | None =>
          obj_dict o !! "grids" = None ∧ gevs = []
          ∧ d1 = kw ∪ <["auxbasis" := aux']> (obj_dict o)
      | Some (g, ni) =>
          is_Some (obj_dict o !! "grids")
          ∧ d1 !! "grids" = Some (VRef g) ∧ d1 !! "_numint" = Some ni
          ∧ (∃ evs', gevs = EvGrids g :: evs')
      end
    ∧ kernel_calls revs = [] ∧ decorations revs = [] ∧ grid_steps revs = []
    ∧ (∀ lv t m, (lv, t, m) ∈ logs revs → lv = Warn)
    ∧ heap w' !! mf1 = Some o1
    ∧ obj_dict o1 !! "converged" = Some vc
    ∧ obj_dict o1 !! "e_tot" = Some ve
    ∧ obj_dict o1 !! "mo_energy" = Some vme
    ∧ obj_dict o1 !! "mo_coeff" = Some vmc
    ∧ obj_dict o1 !! "mo_occ" = Some vmo
    ∧ heap w' !! mf
      = Some (Obj (obj_class o)
                (finalized_dict mf vc ve vme vmc vmo (obj_dict o)))
    ∧ (builds_cache self1 = false → cache_builds revs = [])
    ∧ (kernel_of_class self1 →
         solves revs = [(mf1, self1, [c; occ])]
         ∧ vc = VBool (r_converged (scf self1 [c; occ]))
         ∧ ve = r_e_tot (scf self1 [c; occ])
         ∧ vme = r_mo_energy (scf self1 [c; occ])
         ∧ vmc = r_mo_coeff (scf self1 [c; occ])
         ∧ vmo = r_mo_occ (scf self1 [c; occ]))
    ∧ (¬ kernel_of_class self1 → solves revs = [] ∧ cache_builds revs = [])
    ∧ ((is_None dm = false ∧ wevs = [] ∧ sd = d1
        ∧ (c, occ) = from_dm self1 dm)
       ∨ (is_None dm = true ∧ is_None mc = false ∧ is_None mo = false
          ∧ wevs = [] ∧ sd = d1 ∧ c = mc ∧ occ = mo)
       ∨ (is_None dm = true ∧ is_None mc || is_None mo = true
          ∧ ∃ mf0 o0 cv nv evs0,
              let self0 := Obj (DFHF (obj_class o))
                             (warm_start_dict aux' ap (obj_dict o)) in
              mf0 ≠ mf ∧ mf0 ≠ mf1
              ∧ is_Some (obj_dict o !! "level_shift")
              ∧ wevs = [EvLog Note mf msg_guess_rule;
                        EvLog Note mf msg_guess_begin;
                        EvLog Note mf msg_guess_rule; EvDecorate mf mf0;
                        EvCall mf0 self0 []] ++ evs0 ++
                       [EvLog Note mf msg_end_rule;
                        EvLog Note mf msg_guess_end;
                        EvLog Note mf msg_end_rule]
              ∧ kernel_calls evs0 = [] ∧ decorations evs0 = []
              ∧ grid_steps evs0 = []
              ∧ sd = <["_naoaux" := nv]> (<["_cderi" := cv]> d1)
              ∧ heap w' !! mf0 = Some o0
              ∧ obj_dict o0 !! "_cderi" = Some cv
              ∧ obj_dict o0 !! "_naoaux" = Some nv
              ∧ obj_dict o0 !! "mo_coeff" = Some c
              ∧ obj_dict o0 !! "mo_occ" = Some occ
              ∧ (kernel_of_class o →
                   solves evs0 = [(mf0, self0, [])]
                   ∧ c = r_mo_coeff (scf self0 [])
                   ∧ occ = r_mo_occ (scf self0 [])
                   ∧ cv ≠ VNone
                   ∧ ∀ s t, (s, t) ∈ cache_builds evs0 →
                       s = mf0 ∧ cv = VRef t)
              ∧ (¬ kernel_of_class o →
                   solves evs0 = [] ∧ cache_builds evs0 = []))).
Proof.
  unfold fast_newton. intros H.
  apply bind_inv in H as (aux' & w0 & Haux & H).
  pose proof (choose_auxbasis_inv _ _ _ _ _ Haux) as ->.
  apply bind_inv in H as ([mf1 ap] & w1 & Hb & H).
  apply build_refined_inv in Hb
    as (o & n & d1 & gevs & Hmf & Hmf' & Hne & Hn & Hmf1 & Htr1 & Hgev & Hd1 & Hap).
  apply bind_inv in H as ([c occ] & w2 & Hg & H).
  apply (initial_guess_inv _ _ _ _ _ _ _ _ _ _ _ _ Hmf1) in Hg
    as [(Hdm & -> & Hseed)|[(Hdm & Hmc & Hmo & -> & -> & ->)
                           |(Hdm & Hmiss & mf0 & Hws)]].
  - (* a density matrix was supplied *)
    apply (refine_and_finalize_inv _ _ _ _ _ _ _ _ _ Hmf' Hmf1 Hne) in H
      as (o1 & revs & vc & ve & vme & vmc & vmo & -> & Htr & R1 & R2 & R3 & R4
          & Ho1 & _ & V1 & V2 & V3 & V4 & V5 & Hfin & _ & Hb & Hk & Hnk).
    exists aux', o, n, mf1, ap, d1, gevs, [], revs, c, occ, d1, o1,
      vc, ve, vme, vmc, vmo.
    cbv zeta. repeat (split; [first [done | by rewrite Htr, Htr1; norm_trace]|]).
    left. done.
  - (* orbitals and occupations were supplied *)
    apply (refine_and_finalize_inv _ _ _ _ _ _ _ _ _ Hmf' Hmf1 Hne) in H
      as (o1 & revs & vc & ve & vme & vmc & vmo & -> & Htr & R1 & R2 & R3 & R4
          & Ho1 & _ & V1 & V2 & V3 & V4 & V5 & Hfin & _ & Hb & Hk & Hnk).
    exists aux', o, n, mf1, ap, d1, gevs, [], revs, mc, mo, d1, o1,
      vc, ve, vme, vmc, vmo.
    cbv zeta. repeat (split; [first [done | by rewrite Htr, Htr1; norm_trace]|]).
    right. left. done.
  - (* warm start *)
    apply (warm_start_inv _ _ _ _ _ _ _ _ _ _ _ Hmf' Hmf1 Hne) in Hws
      as (o0 & cv & nv & evs0 & Hfresh & Hls & Htr2 & W1 & W2 & W3 & Hmf''
          & Hmf1' & Hmf0 & C1 & C2 & C3 & C4 & Hwk & Hwnk).
    assert (mf0 ≠ mf) as Hne0 by (intros ->; congruence).
    assert (mf0 ≠ mf1) as Hne1 by (intros ->; congruence).
    apply (refine_and_finalize_inv _ _ _ _ _ _ _ _ _ Hmf'' Hmf1' Hne) in H
      as (o1 & revs & vc & ve & vme & vmc & vmo & -> & Htr & R1 & R2 & R3 & R4
          & Ho1 & _ & V1 & V2 & V3 & V4 & V5 & Hfin & Hframe & Hb & Hk & Hnk).
    exists aux', o, n, mf1, ap, d1, gevs,
      ([EvLog Note mf msg_guess_rule; EvLog Note mf msg_guess_begin;
        EvLog Note mf msg_guess_rule; EvDecorate mf mf0;
        EvCall mf0 (Obj (DFHF (obj_class o))
                      (warm_start_dict aux' ap (obj_dict o))) []] ++ evs0 ++
       [EvLog Note mf msg_end_rule; EvLog Note mf msg_guess_end;
        EvLog Note mf msg_end_rule]),
      revs, c, occ, (<["_naoaux" := nv]> (<["_cderi" := cv]> d1)), o1,
      vc, ve, vme, vmc, vmo.
    cbv zeta. simpl in Htr, Hb, Hk, Hnk.
    repeat (split; [first [done | by rewrite Htr, Htr2, Htr1; norm_trace]|]).
    right. right. split; [done|]. split; [done|].
    exists mf0, o0, cv, nv, evs0. cbv zeta.
    repeat (split; [first [done | by apply Hframe]|]).
    split; [|done].
    intros Hko. destruct (Hwk Hko) as (? & ? & ? & ? & Hin).
    repeat (split; [done|]). intros s t Hst. by destruct (Hin s t Hst) as (? & ? & _).
Qed.

(** *** Runs that cannot fail *)

Lemma setattr_live l name v w :
  is_Some (heap w !! l) → ∃ w1, setattr l name v w = Ok tt w1.
Proof. intros [o Ho]. rewrite (setattr_ok _ _ _ _ _ Ho). eauto. Qed.

Lemma copy_copy_live v w :
  (∀ l, v = VRef l → is_Some (heap w !! l)) →
  ∃ v' w1, copy_copy v w = Ok v' w1
           ∧ ∀ k, is_Some (heap w !! k) → is_Some (heap w1 !! k).
Proof.
  intros Hv. destruct v; simpl; try by eauto.
  destruct (Hv l eq_refl) as [o Ho].
  rewrite (bind_ok _ _ _ _ _ (deref_ok _ _ _ Ho)). fwd.
  eexists _, _. split; [done|]. simpl. intros k Hk.
  apply lookup_insert_is_Some'. by right.
Qed.

Lemma choose_auxbasis_ok mf aux w o :
  heap w !! mf = Some o → is_Some (obj_dict o !! "mol") →
  ∃ aux', choose_auxbasis aug_etb_for_dfbasis mf aux w = Ok aux' w.
Proof.
  intros Ho [mol Hmol]. unfold choose_auxbasis. destruct (is_None aux).
  - rewrite (bind_ok _ _ _ _ _ (getattr_ok _ _ _ _ _ Ho Hmol)). eauto.
  - eauto.
Qed.

Lemma build_refined_ok mf aux kw w o :
  heap w !! mf = Some o → solver_ready w o →
  ∃ mf1 ap w1, build_refined mf aux kw w = Ok (mf1, ap) w1.
Proof.
  intros Ho Hr. unfold build_refined.
  rewrite (bind_ok _ _ _ _ _ (newton_ok _ _ _ Ho)).
  set (n := fresh (dom (heap w))).
  assert (heap w !! n = None) as Hn by apply fresh_None.
  assert (n ≠ mf) as Hnmf by (intros E; rewrite E in Hn; congruence).
  erewrite bind_ok; [|by apply density_fit_ok; solve_lookup].
  cbn [heap trace obj_class obj_dict].
  set (h1 := <[n := _]> (heap w)).
  set (l := fresh (dom h1)).
  assert (h1 !! l = None) as Hl by apply fresh_None.
  apply lookup_insert_None in Hl as [Hl Hnl].
  assert (l ≠ mf) as Hlmf by (intros E; rewrite E in Hl; congruence).
  erewrite bind_ok; [|by apply setattrs_kwargs; solve_lookup].
  cbn [heap trace obj_class obj_dict]. rewrite insert_insert_eq.
  erewrite bind_ok; [|apply hasattr_ok; unfold h1; solve_lookup].
  destruct (obj_dict o !! "grids") as [gv|] eqn:Hgv.
  - rewrite bool_decide_eq_true_2 by eauto.
    destruct (ready_mol _ _ Hr) as [mol Hmol].
    destruct (ready_numint _ _ Hr) as (ni & Hni & Hlive); [by eauto|].
    erewrite bind_ok; [|eapply getattr_ok; [unfold h1; solve_lookup|done]].
    unfold gen_grid_Grids. fwd.
    set (h2 := <[l := _]> h1).
    set (g := fresh (dom h2)).
    assert (h2 !! g = None) as Hg by apply fresh_None.
    apply lookup_insert_None in Hg as [Hg Hgl].
    apply lookup_insert_None in Hg as [Hg Hgn].
    assert (g ≠ mf) as Hgmf by (intros E; rewrite E in Hg; congruence).
    repeat (erewrite setattr_ok by (unfold h2, h1; solve_lookup); fwd).
    rewrite !insert_insert_eq.
    erewrite getattr_ok; [|unfold h2, h1; solve_lookup|done]. fwd.
    set (h3 := <[l := _]> (<[g := _]> h2)).
    norm_trace.
    destruct (copy_copy_live ni (World h3
                (trace w ++ [EvDecorate mf n; EvDecorate n l; EvGrids g])))
      as (ni' & w3 & Hcp & Hlive3).
    { intros k Hk. simpl. unfold h3, h2, h1.
      rewrite !lookup_insert_is_Some'. do 4 right. by apply Hlive. }
    rewrite Hcp.
    destruct (setattr_live l "_numint" ni' w3) as [w4 Hs].
    { apply Hlive3. simpl. unfold h3. rewrite lookup_insert_eq. eauto. }
    rewrite Hs. eauto.
  - rewrite bool_decide_eq_false_2 by (by intros [? ?]). eauto.
Qed.

(** The steps of [warm_start] from the [kernel] call on, on a solver
    whose dictionary agrees with that of [o] on the cache attributes. *)
Ltac warm_start_tail o l mf1 w Hcache :=
  erewrite class_kernel_ok by solve_lookup; fwd;
  match goal with
  | |- context [solved_dict ?r ?t ?s] =>
      assert (obj_dict s !! "_cderi" = obj_dict o !! "_cderi") as Hcd
        by (simpl; by rewrite !lookup_insert_ne);
      assert (obj_dict s !! "_naoaux" = obj_dict o !! "_naoaux") as Hna
        by (simpl; by rewrite !lookup_insert_ne);
      assert (cache_populated s = cache_populated o) as Hpop
        by (unfold cache_populated; by rewrite Hcd);
      pose proof (solved_dict_results r t s) as (_ & _ & _ & R4 & R5);
      pose proof (solved_dict_cderi r t s) as Rc;
      pose proof (solved_dict_naoaux r t s) as Rn;
      assert (<[l := s]> (heap w) !! t = None) as Ht by apply fresh_None;
      apply lookup_insert_None in Ht as [Ht Htl];
      assert (t ≠ mf1) as Htmf1 by (intros E; rewrite E in Ht; congruence);
      destruct (builds_cache s) eqn:Hb;
      [|destruct (not_builds_populated s eq_refl Hb) as (cv & Hcv & Hcvn);
        destruct Hcache as [nv Hnv];
        [ rewrite <- Hpop; unfold cache_populated; rewrite Hcv;
          by destruct cv
        | rewrite <- Hna in Hnv; rewrite Hcv in Rc; rewrite Hnv in Rn ]];
      (erewrite getattr_ok; [|solve_lookup|exact Rc]); fwd;
      (erewrite setattr_ok by solve_lookup); fwd;
      (erewrite getattr_ok; [|solve_lookup|exact Rn]); fwd;
      (erewrite setattr_ok by solve_lookup); fwd;
      (erewrite getattr_ok; [|solve_lookup|exact R4]); fwd;
      (erewrite getattr_ok; [|solve_lookup|exact R5]); fwd;
      eauto
  end.

Lemma warm_start_ok mf mf1 ap aux w o o1 :
  heap w !! mf = Some o → heap w !! mf1 = Some o1 → mf1 ≠ mf →
  is_Some (obj_dict o !! "level_shift") →
  kernel_of_class o →
  (cache_populated o = true → is_Some (obj_dict o !! "_naoaux")) →
  (is_Some (obj_dict o !! "grids") → is_Some ap) →
  ∃ r w', warm_start scf mf mf1 ap aux w = Ok r w'.
Proof.
  intros Hmf Hmf1 Hne [ls Hls] Hk Hcache Hap. unfold warm_start. fwd.
  erewrite density_fit_ok by solve_lookup. fwd.
  set (l := fresh (dom (heap w))).
  assert (heap w !! l = None) as Hl by apply fresh_None.
  assert (l ≠ mf) as Hlmf by (intros E; rewrite E in Hl; congruence).
  assert (l ≠ mf1) as Hlmf1 by (intros E; rewrite E in Hl; congruence).
  repeat (erewrite setattr_ok by solve_lookup; fwd).
  rewrite !insert_insert_eq.
  erewrite getattr_ok; [|solve_lookup|solve_lookup]. fwd.
  assert (Hgrids : ∀ gv, obj_dict o !! "grids" = Some gv →
            ∃ g ni, ap = Some (g, ni)).
  { intros gv Hgv. destruct Hap as [[g ni] ->]; eauto. }
  destruct (eq_zero ls);
    [erewrite setattr_ok by solve_lookup; fwd; rewrite insert_insert_eq|];
    (erewrite hasattr_ok by solve_lookup; fwd);
    (destruct (obj_dict o !! "grids") as [gv|] eqn:Hgv;
     [ rewrite bool_decide_eq_true_2 by eauto;
       destruct (Hgrids gv eq_refl) as (g & ni & ->); fwd;
       repeat (erewrite setattr_ok by solve_lookup; fwd);
       rewrite !insert_insert_eq
     | rewrite bool_decide_eq_false_2 by (by intros [? ?]); fwd ]);
    (erewrite call_kernel_class;
     [|solve_lookup
      |unfold kernel_of_class; simpl; by rewrite !lookup_insert_ne]);
    warm_start_tail o l mf1 w Hcache.
Qed.

Lemma refine_and_finalize_ok mf mf1 c occ w o self1 :
  heap w !! mf = Some o → heap w !! mf1 = Some self1 → mf1 ≠ mf →
  kernel_of_class self1 →
  ∃ w', refine_and_finalize scf mf mf1 c occ w = Ok mf w'.
Proof.
  intros Hmf Hmf1 Hne Hk. unfold refine_and_finalize. fwd.
  erewrite call_kernel_class by done.
  erewrite class_kernel_ok by solve_lookup. fwd.
  match goal with
  | |- context [solved_dict ?r ?t self1] =>
      pose proof (solved_dict_results r t self1) as (R1 & R2 & R3 & R4 & R5);
      assert (heap w !! t = None) as Ht by apply fresh_None;
      assert (t ≠ mf) as Htmf by (intros E; rewrite E in Ht; congruence)
  end.
  destruct (builds_cache self1);
    (erewrite getattr_ok; [|solve_lookup|exact R1]); fwd;
    (erewrite setattr_ok by solve_lookup); fwd;
    (erewrite getattr_ok; [|solve_lookup|exact R2]); fwd;
    (erewrite setattr_ok by solve_lookup); fwd;
    (erewrite getattr_ok; [|solve_lookup|exact R3]); fwd;
    (erewrite setattr_ok by solve_lookup); fwd;
    (erewrite getattr_ok; [|solve_lookup|exact R4]); fwd;
    (erewrite setattr_ok by solve_lookup); fwd;
    (erewrite getattr_ok; [|solve_lookup|exact R5]); fwd;
    (erewrite setattr_ok by solve_lookup); fwd;
    (erewrite setattr_ok by solve_lookup); fwd;
    eauto.
Qed.

(** [fast_newton] returns on every ready base solver, whatever the
    initial guess, the auxiliary basis and the numerical results, as long
    as the keyword arguments do not replace [kernel]. *)
Lemma fast_newton_ok mf mc mo dm aux kw w o :
  heap w !! mf = Some o → solver_ready w o → kw !! "kernel" = None →
  ∃ w', fast_newton scf from_dm aug_etb_for_dfbasis mf mc mo dm aux kw w
        = Ok mf w'.
Proof.
  intros Hmf Hr Hkw. unfold fast_newton.
  destruct (choose_auxbasis_ok mf aux w o Hmf (ready_mol _ _ Hr)) as [aux' Ha].
  rewrite (bind_ok _ _ _ _ _ Ha).
  destruct (build_refined_ok mf aux' kw w o Hmf Hr) as (mf1 & ap & w1 & Hb).
  rewrite (bind_ok _ _ _ _ _ Hb). cbv beta iota.
  apply build_refined_inv in Hb
    as (o' & n & d1 & gevs & Hmf0 & Hmf' & Hne & Hn & Hmf1 & Htr1 & Hgev & Hd1 & Hap).
  assert (o' = o) as -> by congruence. clear Hmf0.
  assert (Hk1 : d1 !! "kernel" = None).
  { rewrite Hd1 by done. apply lookup_union_None. split; [done|].
    rewrite lookup_insert_ne by done. apply (ready_kernel _ _ Hr). }
  unfold initial_guess. destruct (is_None dm); simpl.
  - destruct (is_None mc || is_None mo).
    + destruct (warm_start_ok mf mf1 ap aux' w1 o _ Hmf' Hmf1 Hne
                  (ready_level_shift _ _ Hr) (ready_kernel _ _ Hr)
                  (ready_cache _ _ Hr)) as ([[mf0 c] occ] & w2 & Hws).
      { intros Hg. destruct ap as [[??]|]; [eauto|].
        destruct Hap as [Hnone _]. rewrite Hnone in Hg. by destruct Hg. }
      fwd. rewrite Hws. fwd.
      apply (warm_start_inv _ _ _ _ _ _ _ _ _ _ _ Hmf' Hmf1 Hne) in Hws
        as (o0 & cv & nv & evs0 & _ & _ & _ & _ & _ & _ & Hmf''
            & Hmf1' & _).
      eapply refine_and_finalize_ok; [done|done|done|].
      unfold kernel_of_class. simpl. by rewrite !lookup_insert_ne.
    + fwd. by eapply refine_and_finalize_ok.
  - fwd. rewrite (deref_ok _ _ _ Hmf1). fwd.
    destruct (from_dm _ dm) as [c occ].
    by eapply refine_and_finalize_ok.
Qed.


(** *** Events *)

Lemma new_events_app w w' evs :
  trace w' = trace w ++ evs → new_events w w' = evs.
Proof. unfold new_events. intros ->. by rewrite drop_app_length. Qed.

Lemma kernel_calls_app evs1 evs2 :
  kernel_calls (evs1 ++ evs2) = kernel_calls evs1 ++ kernel_calls evs2.
Proof. apply omap_app. Qed.

Lemma decorations_app evs1 evs2 :
  decorations (evs1 ++ evs2) = decorations evs1 ++ decorations evs2.
Proof. apply omap_app. Qed.

Lemma solves_app evs1 evs2 : solves (evs1 ++ evs2) = solves evs1 ++ solves evs2.
Proof. apply omap_app. Qed.

Lemma cache_builds_app evs1 evs2 :
  cache_builds (evs1 ++ evs2) = cache_builds evs1 ++ cache_builds evs2.
Proof. apply omap_app. Qed.

Lemma logs_app evs1 evs2 : logs (evs1 ++ evs2) = logs evs1 ++ logs evs2.
Proof. apply omap_app. Qed.


Lemma grid_steps_length evs : length (grid_steps evs) ≤ length evs.
Proof.
  induction evs as [|e evs IH]; simpl; [done|].
  destruct e; simpl; lia.
Qed.

(** A list of grid steps holds nothing else. *)
Lemma grid_steps_only evs :
  grid_steps evs = evs →
  kernel_calls evs = [] ∧ decorations evs = [] ∧ solves evs = []
  ∧ cache_builds evs = [] ∧ logs evs = [].
Proof.
  induction evs as [|e evs IH]; [done|].
  intros H. pose proof (grid_steps_length evs) as Hlen.
  destruct e; simpl in H;
    try (apply (f_equal length) in H; simpl in H; lia);
    injection H as H; by apply IH.
Qed.

(** *** Computations that add no warm-start event *)

Lemma no_warm_start_ret {A} (a : A) : no_warm_start (mret a : M A).
Proof. intros w. exists []. by rewrite app_nil_r. Qed.

Lemma no_warm_start_raise {A} e : no_warm_start (raise e : M A).
Proof. intros w. exists []. by rewrite app_nil_r. Qed.

Lemma no_warm_start_bind {A B} (m : M A) (k : A → M B) :
  no_warm_start m → (∀ a, no_warm_start (k a)) → no_warm_start (m ≫= k).
Proof.
  intros Hm Hk w. destruct (Hm w) as (evs1 & Ht1 & Hq1).
  unfold mbind, M_bind. destruct (m w) as [a w1|e w1]; simpl in *.
  - destruct (Hk a w1) as (evs2 & Ht2 & Hq2). exists (evs1 ++ evs2).
    split. { by rewrite Ht2, Ht1, app_assoc. } by apply Forall_app.
  - eauto.
Qed.

Lemma no_warm_start_emit ev :
  warm_start_event ev = false → no_warm_start (emit ev).
Proof. intros H w. exists [ev]. split; [done|]. by constructor. Qed.

Lemma no_warm_start_alloc o : no_warm_start (alloc o).
Proof. intros w. exists []. by rewrite app_nil_r. Qed.

Lemma no_warm_start_deref l : no_warm_start (deref l).
Proof.
  intros w. exists []. rewrite app_nil_r. unfold deref.
  by destruct (heap w !! l).
Qed.

Lemma no_warm_start_store l o : no_warm_start (store l o).
Proof. intros w. exists []. by rewrite app_nil_r. Qed.

Lemma no_warm_start_getattr l name : no_warm_start (getattr l name).
Proof.
  apply no_warm_start_bind; [apply no_warm_start_deref|]. intros o.
  destruct (obj_dict o !! name);
    [apply no_warm_start_ret | apply no_warm_start_raise].
Qed.

Lemma no_warm_start_hasattr l name : no_warm_start (hasattr l name).
Proof.
  apply no_warm_start_bind; [apply no_warm_start_deref|]. intros o.
  apply no_warm_start_ret.
Qed.

Lemma no_warm_start_setattr l name v : no_warm_start (setattr l name v).
Proof.
  apply no_warm_start_bind; [apply no_warm_start_deref|]. intros o.
  apply no_warm_start_store.
Qed.

Lemma no_warm_start_setattrs l kvs : no_warm_start (setattrs l kvs).
Proof.
  induction kvs as [|[key v] kvs IH]; simpl; [apply no_warm_start_ret|].
  apply no_warm_start_bind; [apply no_warm_start_setattr | done].
Qed.

Ltac no_warm_step :=
  first
    [ apply no_warm_start_ret
    | apply no_warm_start_raise
    | apply no_warm_start_getattr
    | apply no_warm_start_hasattr
    | apply no_warm_start_setattr
    | apply no_warm_start_setattrs
    | apply no_warm_start_alloc
    | apply no_warm_start_deref
    | apply no_warm_start_emit; reflexivity
    | apply no_warm_start_bind; [|intros ?]
    | match goal with
      | |- no_warm_start (if ?b then _ else _) => destruct b
      | |- no_warm_start (match ?x with _ => _ end) => destruct x
      end ].

Ltac no_warm := repeat no_warm_step.

Lemma no_warm_start_density_fit mf aux :
  no_warm_start (density_fit mf aux VNone).
Proof. unfold density_fit, method_density_fit. no_warm. Qed.

Lemma no_warm_start_newton mf : no_warm_start (newton mf).
Proof. unfold newton, newton_ah_newton. no_warm. Qed.

Lemma no_warm_start_copy_copy v : no_warm_start (copy_copy v).
Proof. destruct v; simpl; no_warm. Qed.

Lemma no_warm_start_gen_grid mol : no_warm_start (gen_grid_Grids mol).
Proof. unfold gen_grid_Grids. no_warm. Qed.

Lemma no_warm_start_build_refined mf aux kw :
  no_warm_start (build_refined mf aux kw).
Proof.
  unfold build_refined.
  repeat first [ apply no_warm_start_newton
               | apply no_warm_start_density_fit
               | apply no_warm_start_gen_grid
               | apply no_warm_start_copy_copy
               | no_warm_step ].
Qed.

Lemma no_warm_start_class_kernel l args :
  no_warm_start (class_kernel scf l args).
Proof. unfold class_kernel. no_warm. Qed.

Lemma no_warm_start_call_kernel l arg args :
  no_warm_start (call_kernel scf l (arg :: args)).
Proof.
  unfold call_kernel, mf_kernel.
  repeat first [ apply no_warm_start_class_kernel | no_warm_step ].
Qed.

Lemma no_warm_start_refine mf mf1 c occ :
  no_warm_start (refine_and_finalize scf mf mf1 c occ).
Proof.
  unfold refine_and_finalize.
  repeat first [ apply no_warm_start_call_kernel | no_warm_step ].
Qed.

Lemma no_warm_start_events {A} (m : M A) w :
  no_warm_start m → Forall (λ e, warm_start_event e = false) (events_of m w).
Proof.
  intros H. destruct (H w) as (evs & Ht & Hq). unfold events_of.
  by rewrite (new_events_app _ _ _ Ht).
Qed.

(* ===================================================================== *)
(** ** The claims about [fast_newton]                                     *)
(* ===================================================================== *)

(** C1, amended: in every run of [fast_newton] that returns, the solver
    that runs the refinement phase is built as
    [density_fit(newton(mf), auxbasis)]: the first decoration wraps the
    base solver [mf] in the Newton handle [n], the second applies density
    fitting to [n], and the class of the solver whose [kernel] runs the
    refinement has the density-fitting layer on top of the Newton layer
    on top of the class of [mf]; it carries the chosen auxiliary basis
    unless a keyword argument overrides it. *)
Theorem refined_solver_is_fit_over_newton mf mc mo dm aux kw w r w' :
  fast_newton scf from_dm aug_etb_for_dfbasis mf mc mo dm aux kw w = Ok r w' →
  ∃ o aux' n mf1 self args,
    heap w !! mf = Some o
    ∧ choose_auxbasis aug_etb_for_dfbasis mf aux w = Ok aux' w
    ∧ take 2 (decorations (new_events w w')) = [(mf, n); (n, mf1)]
    ∧ last (kernel_calls (new_events w w')) = Some (mf1, self, args)
    ∧ obj_class self = DFHF (NewtonAH (obj_class o))
    ∧ refine_call_class (new_events w w')
      = Some (DFHF (NewtonAH (obj_class o)))
    ∧ (kw !! "auxbasis" = None → obj_dict self !! "auxbasis" = Some aux').
Proof.
  intros H. apply fast_newton_inv in H
    as (aux' & o & n & mf1 & ap & d1 & gevs & wevs & revs & c & occ & sd & o1
        & vc & ve & vme & vmc & vmo & H).
  cbv zeta in H.
  destruct H as (-> & Haux & Hmf & Hne & Hn & Htr & Hgev & Hd1 & Hap & R1 & R2
                 & R3 & R4 & _ & _ & _ & _ & _ & _ & _ & _ & _ & _ & Hguess).
  apply new_events_app in Htr. rewrite Htr.
  set (self := Obj (DFHF (NewtonAH (obj_class o))) sd).
  assert (Hlast : last (kernel_calls
            (EvDecorate mf n :: EvDecorate n mf1 :: gevs ++ wevs
               ++ EvCall mf1 self [c; occ] :: revs))
          = Some (mf1, self, [c; occ])).
  { change (EvDecorate mf n :: EvDecorate n mf1 :: gevs ++ wevs
              ++ EvCall mf1 self [c; occ] :: revs)
      with ([EvDecorate mf n; EvDecorate n mf1] ++ gevs ++ wevs
              ++ [EvCall mf1 self [c; occ]] ++ revs).
    rewrite !kernel_calls_app, R1, app_nil_r. simpl.
    rewrite !app_assoc. apply last_snoc. }
  exists o, aux', n, mf1, self, [c; occ].
  split; [done|]. split; [done|]. split; [done|]. split; [done|].
  split; [done|]. split. { unfold refine_call_class. by rewrite Hlast. }
  intros Hkw.
  assert (d1 !! "auxbasis" = Some aux') as Hd1aux.
  { rewrite Hd1 by done. rewrite lookup_union_r by done.
    by rewrite lookup_insert_eq. }
  destruct Hguess as [(_ & _ & -> & _)|[(_ & _ & _ & _ & -> & _)|(_ & _ & Hw)]];
    [done|done|].
  destruct Hw as (mf0 & o0 & cv & nv & evs0 & Hw). cbv zeta in Hw.
  destruct Hw as (_ & _ & _ & _ & _ & _ & _ & -> & _).
  simpl. by rewrite !lookup_insert_ne.
Qed.

(** A run that was given an initial guess and returns: two decorations,
    one [kernel] call, on the refined solver, with the guess. *)
Lemma supplied_guess_run mf mc mo dm aux kw w r w' :
  guess_supplied mc mo dm = true →
  fast_newton scf from_dm aug_etb_for_dfbasis mf mc mo dm aux kw w = Ok r w' →
  ∃ o n mf1 self,
    heap w !! mf = Some o
    ∧ decorations (new_events w w') = [(mf, n); (n, mf1)] ∧ n ≠ mf
    ∧ obj_class self = DFHF (NewtonAH (obj_class o))
    ∧ kernel_calls (new_events w w')
      = [(mf1, self,
          if is_None dm then [mc; mo]
          else [(from_dm self dm).1; (from_dm self dm).2])]
    ∧ (∀ s, s ∈ solves (new_events w w') → s.1.1 = mf1)
    ∧ (∀ lv t m, (lv, t, m) ∈ logs (new_events w w') → lv = Warn).
Proof.
  intros Hg H. apply fast_newton_inv in H
    as (aux' & o & n & mf1 & ap & d1 & gevs & wevs & revs & c & occ & sd & o1
        & vc & ve & vme & vmc & vmo & H).
  cbv zeta in H.
  destruct H as (-> & Haux & Hmf & Hne & Hn & Htr & Hgev & Hd1 & Hap & R1 & R2
                 & R3 & R4 & _ & _ & _ & _ & _ & _ & _ & _ & Hk & Hnk & Hguess).
  apply new_events_app in Htr. rewrite Htr.
  destruct (grid_steps_only _ Hgev) as (G1 & G2 & G3 & G4 & G5).
  set (self := Obj (DFHF (NewtonAH (obj_class o))) sd) in *.
  assert (wevs = [] ∧ [c; occ] = if is_None dm then [mc; mo]
            else [(from_dm self dm).1; (from_dm self dm).2]) as [-> Hargs].
  { unfold guess_supplied in Hg.
    destruct Hguess as [(Hdm & -> & _ & Hs)|[(Hdm & _ & _ & -> & _ & -> & ->)
                                           |(Hdm & Hmiss & _)]].
    - rewrite Hdm. by rewrite <- Hs.
    - by rewrite Hdm.
    - rewrite Hdm in Hg. simpl in Hg.
      destruct (is_None mc), (is_None mo); done. }
  change (EvDecorate mf n :: EvDecorate n mf1 :: gevs ++ []
            ++ EvCall mf1 self [c; occ] :: revs)
    with ([EvDecorate mf n; EvDecorate n mf1] ++ gevs
            ++ [EvCall mf1 self [c; occ]] ++ revs).
  exists o, n, mf1, self.
  split; [done|].
  split. { rewrite !decorations_app, G2, R2. done. }
  split; [done|]. split; [done|].
  split. { rewrite !kernel_calls_app, G1, R1. simpl. by rewrite Hargs. }
  split.
  - intros s. rewrite !solves_app, G3. simpl.
    destruct (decide (kernel_of_class self)) as [Hks|Hks].
    + destruct (Hk Hks) as (-> & _). intros ->%list_elem_of_singleton. done.
    + destruct (Hnk Hks) as (-> & _). by intros ?%elem_of_nil.
  - intros lv t m. rewrite !logs_app, G5. simpl. apply R4.
Qed.


(** C4: in every call of [fast_newton] with a density matrix, or with
    both orbital coefficients and occupations, the warm start does not
    execute.  Whether the call returns or raises, it logs no line of the
    warm-start banner and calls no [kernel] without arguments.  When it
    returns, the only decorations are the two that build the refined
    solver (none is applied to produce a warm-start solver), the only
    [kernel] call is that of the refined solver, no other solver is
    iterated, and the arguments of that call are the supplied orbitals
    and occupations, or, when a density matrix was given, the orbitals
    and occupations [from_dm] makes of it. *)
Theorem supplied_guess_skips_warm_start mf mc mo dm aux kw w :
  guess_supplied mc mo dm = true →
  Forall (λ e, warm_start_event e = false)
    (events_of
       (fast_newton scf from_dm aug_etb_for_dfbasis mf mc mo dm aux kw) w)
  ∧ ∀ r w',
      fast_newton scf from_dm aug_etb_for_dfbasis mf mc mo dm aux kw w
      = Ok r w' →
      ∃ o n mf1 self,
        heap w !! mf = Some o
        ∧ decorations (new_events w w') = [(mf, n); (n, mf1)] ∧ n ≠ mf
        ∧ obj_class self = DFHF (NewtonAH (obj_class o))
        ∧ kernel_calls (new_events w w')
          = [(mf1, self,
              if is_None dm then [mc; mo]
              else [(from_dm self dm).1; (from_dm self dm).2])]
        ∧ (∀ s, s ∈ solves (new_events w w') → s.1.1 = mf1)
        ∧ (∀ lv t m, (lv, t, m) ∈ logs (new_events w w') → lv = Warn).
Proof.
  intros Hg. split.
  - apply no_warm_start_events. unfold fast_newton.
    apply no_warm_start_bind.
    { unfold choose_auxbasis. destruct (is_None aux); no_warm. }
    intros aux'. apply no_warm_start_bind;
      [apply no_warm_start_build_refined|]. intros [mf1 ap].
    apply no_warm_start_bind.
    + unfold initial_guess, guess_supplied in *.
      destruct (is_None dm); simpl in *; [|no_warm].
      destruct (is_None mc), (is_None mo); simpl in *; try done. no_warm.
    + intros [c occ]. apply no_warm_start_refine.
  - intros r w' H. by eapply supplied_guess_run.
Qed.

(** The calls of a run with a warm start: first the warm-start solver,
    then the refined solver. *)
Lemma warm_run_calls mf n mf1 mf0 self0 self1 c occ gevs evs0 revs tail :
  grid_steps gevs = gevs → kernel_calls evs0 = [] → kernel_calls revs = [] →
  kernel_calls
    (EvDecorate mf n :: EvDecorate n mf1 :: gevs ++
     ([EvLog Note mf msg_guess_rule; EvLog Note mf msg_guess_begin;
       EvLog Note mf msg_guess_rule; EvDecorate mf mf0;
       EvCall mf0 self0 []] ++ evs0 ++ tail) ++
     EvCall mf1 self1 [c; occ] :: revs)
  = [(mf0, self0, [])] ++ kernel_calls tail ++ [(mf1, self1, [c; occ])].
Proof.
  intros Hg H0 Hr. destruct (grid_steps_only _ Hg) as (G1 & _).
  change (EvDecorate mf n :: EvDecorate n mf1 :: gevs ++ ?x)
    with ([EvDecorate mf n; EvDecorate n mf1] ++ gevs ++ x).
  change (EvCall mf1 self1 [c; occ] :: revs)
    with ([EvCall mf1 self1 [c; occ]] ++ revs).
  rewrite !kernel_calls_app, G1, H0, Hr. done.
Qed.

(** C5: whenever the warm start runs (a call without density matrix and
    without both orbitals and occupations, that returns), the solver
    whose [kernel] is called first is the warm-start solver: it was built
    by applying density fitting to the base solver itself, so its class
    is the class of the base solver under one density-fitting layer,
    with no Newton layer added; it carries the auxiliary basis; its
    [conv_tol] is 0.25, above the documented default 1e-10, and its
    [conv_tol_grad] is 0.5, above the production default (which this
    module does not state and which is taken as a parameter below 0.5); its
    level shift is 0.3, not zero, if the level shift of the base solver
    equals zero, and the level shift of the base solver otherwise; and on
    every attribute other than these and the grid attributes it is a
    copy of the base solver. *)
Theorem warm_start_solver_is_loosened_fit
    (default_conv_tol_grad : Q) mf mc mo dm aux kw w r w' :
  (default_conv_tol_grad < 1 # 2)%Q →
  guess_supplied mc mo dm = false →
  fast_newton scf from_dm aug_etb_for_dfbasis mf mc mo dm aux kw w = Ok r w' →
  ∃ o aux' mf0 self0 call1 ls,
    heap w !! mf = Some o
    ∧ choose_auxbasis aug_etb_for_dfbasis mf aux w = Ok aux' w
    ∧ kernel_calls (new_events w w') = [(mf0, self0, []); call1]
    ∧ (mf, mf0) ∈ decorations (new_events w w')
    ∧ obj_class self0 = DFHF (obj_class o)
    ∧ density_fitted (obj_class self0) = true
    ∧ newton_decorated (obj_class self0) = newton_decorated (obj_class o)
    ∧ obj_dict self0 !! "auxbasis" = Some aux'
    ∧ obj_dict self0 !! "conv_tol" = Some (VNum (1 # 4))
    ∧ loosened default_conv_tol (VNum (1 # 4))
    ∧ obj_dict self0 !! "conv_tol_grad" = Some (VNum (1 # 2))
    ∧ loosened default_conv_tol_grad (VNum (1 # 2))
    ∧ obj_dict o !! "level_shift" = Some ls
    ∧ obj_dict self0 !! "level_shift"
      = Some (if eq_zero ls then VNum (3 # 10) else ls)
    ∧ eq_zero (VNum (3 # 10)) = false
    ∧ ∀ k, k ≠ "auxbasis"%string → k ≠ "conv_tol"%string →
        k ≠ "conv_tol_grad"%string → k ≠ "level_shift"%string →
        k ≠ "grids"%string → k ≠ "_numint"%string →
        k ≠ "small_rho_cutoff"%string →
        obj_dict self0 !! k = obj_dict o !! k.
Proof.
  intros Hgrad Hg H. apply fast_newton_inv in H
    as (aux' & o & n & mf1 & ap & d1 & gevs & wevs & revs & c & occ & sd & o1
        & vc & ve & vme & vmc & vmo & H).
  cbv zeta in H.
  destruct H as (-> & Haux & Hmf & Hne & Hn & Htr & Hgev & Hd1 & Hap & R1 & R2
                 & R3 & R4 & _ & _ & _ & _ & _ & _ & _ & _ & Hk & Hnk & Hguess).
  apply new_events_app in Htr. rewrite Htr.
  unfold guess_supplied in Hg.
  destruct Hguess as [(Hdm & _)|[(Hdm & Hc & Ho & _)|(Hdm & Hmiss & Hw)]];
    [by rewrite Hdm in Hg | by rewrite Hdm, Hc, Ho in Hg |].
  destruct Hw as (mf0 & o0 & cv & nv & evs0 & Hw). cbv zeta in Hw.
  destruct Hw as (Hne0 & Hne1 & [ls Hls] & -> & W1 & W2 & W3 & -> & _).
  set (d := obj_dict o) in *.
  set (self0 := Obj (DFHF (obj_class o)) (warm_start_dict aux' ap d)).
  exists o, aux', mf0, self0,
    (mf1, Obj (DFHF (NewtonAH (obj_class o)))
            (<["_naoaux" := nv]> (<["_cderi" := cv]> d1)), [c; occ]), ls.
  assert (Hdict : ∀ k, k ≠ "grids"%string → k ≠ "_numint"%string →
            k ≠ "small_rho_cutoff"%string →
            warm_start_dict aux' ap d !! k
            = (if eq_zero ls
               then <["level_shift" := VNum (3 # 10)]>
                      (<["conv_tol_grad" := VNum (1 # 2)]>
                         (<["conv_tol" := VNum (1 # 4)]>
                            (<["auxbasis" := aux']> d)))
               else <["conv_tol_grad" := VNum (1 # 2)]>
                      (<["conv_tol" := VNum (1 # 4)]>
                         (<["auxbasis" := aux']> d))) !! k).
  { intros k K1 K2 K3. unfold warm_start_dict. rewrite Hls.
    destruct (d !! "grids"), ap as [[??]|]; by rewrite ?lookup_insert_ne. }
  split; [done|]. split; [done|].
  split. { by rewrite warm_run_calls. }
  split.
  { change (EvDecorate mf n :: EvDecorate n mf1 :: gevs ++ ?x)
      with ([EvDecorate mf n; EvDecorate n mf1] ++ gevs ++ x).
    destruct (grid_steps_only _ Hgev) as (_ & G2 & _).
    rewrite !decorations_app, G2, W2. simpl. right. right. left. }
  split; [done|]. split; [done|]. split; [done|].
  simpl obj_dict.
  split. { rewrite Hdict by done. destruct (eq_zero ls); solve_lookup. }
  split. { rewrite Hdict by done. destruct (eq_zero ls); solve_lookup. }
  split. { by exists (1 # 4)%Q. }
  split. { rewrite Hdict by done. destruct (eq_zero ls); solve_lookup. }
  split. { by exists (1 # 2)%Q. }
  split; [done|].
  split. { rewrite Hdict by done. destruct (eq_zero ls); solve_lookup. }
  split; [done|].
  intros k. apply warm_start_dict_other.
Qed.

(** C6: whenever the warm start runs, what the refined solver holds as
    [_cderi] and [_naoaux] when its [kernel] is called is what the
    warm-start solver holds after its own solve: the same value, hence
    for a tensor the same object.  When the [kernel] of the base solver
    is that of its class, this cache is populated, every tensor built
    during the whole run was built by the warm-start solver and is the
    very object the refined solver refers to, and the refinement phase
    builds none. *)
Theorem warm_start_cache_is_shared mf mc mo dm aux kw w r w' :
  guess_supplied mc mo dm = false →
  fast_newton scf from_dm aug_etb_for_dfbasis mf mc mo dm aux kw w = Ok r w' →
  ∃ o mf0 self0 mf1 self1 args1 cv nv,
    heap w !! mf = Some o
    ∧ kernel_calls (new_events w w')
      = [(mf0, self0, []); (mf1, self1, args1)]
    ∧ mf0 ≠ mf1
    ∧ attr w' mf0 "_cderi" = Some cv
    ∧ attr w' mf0 "_naoaux" = Some nv
    ∧ obj_dict self1 !! "_cderi" = Some cv
    ∧ obj_dict self1 !! "_naoaux" = Some nv
    ∧ (kernel_of_class o →
         cv ≠ VNone
         ∧ ∀ s t, (s, t) ∈ cache_builds (new_events w w') →
             s = mf0 ∧ cv = VRef t).
Proof.
  intros Hg H. apply fast_newton_inv in H
    as (aux' & o & n & mf1 & ap & d1 & gevs & wevs & revs & c & occ & sd & o1
        & vc & ve & vme & vmc & vmo & H).
  cbv zeta in H.
  destruct H as (-> & Haux & Hmf & Hne & Hn & Htr & Hgev & Hd1 & Hap & R1 & R2
                 & R3 & R4 & _ & _ & _ & _ & _ & _ & _ & Hb & Hk & Hnk & Hguess).
  apply new_events_app in Htr. rewrite Htr.
  unfold guess_supplied in Hg.
  destruct Hguess as [(Hdm & _)|[(Hdm & Hc & Ho & _)|(Hdm & Hmiss & Hw)]];
    [by rewrite Hdm in Hg | by rewrite Hdm, Hc, Ho in Hg |].
  destruct Hw as (mf0 & o0 & cv & nv & evs0 & Hw). cbv zeta in Hw.
  destruct Hw as (Hne0 & Hne1 & _ & -> & W1 & W2 & W3 & -> & Hmf0 & C1 & C2
                  & _ & _ & Hwk & _).
  set (self1 := Obj (DFHF (NewtonAH (obj_class o)))
                  (<["_naoaux" := nv]> (<["_cderi" := cv]> d1))) in *.
  eexists o, mf0, _, mf1, self1, [c; occ], cv, nv.
  split; [done|].
  split. { by rewrite warm_run_calls. }
  split; [done|].
  split. { unfold attr. rewrite Hmf0. done. }
  split. { unfold attr. rewrite Hmf0. done. }
  split. { simpl. by rewrite lookup_insert_ne, lookup_insert_eq. }
  split. { simpl. by rewrite lookup_insert_eq. }
  intros Hko. destruct (Hwk Hko) as (_ & _ & _ & Hcv & Hin).
  split; [done|].
  assert (cache_builds revs = []) as Hrevs.
  { apply Hb. unfold builds_cache, cache_populated. simpl.
    rewrite lookup_insert_ne, lookup_insert_eq by done. by destruct cv. }
  destruct (grid_steps_only _ Hgev) as (_ & _ & _ & G4 & _).
  intros s t.
  change (EvDecorate mf n :: EvDecorate n mf1 :: gevs ++ ?x)
    with ([EvDecorate mf n; EvDecorate n mf1] ++ gevs ++ x).
  change (EvCall mf1 self1 [c; occ] :: revs)
    with ([EvCall mf1 self1 [c; occ]] ++ revs).
  rewrite !cache_builds_app, G4, Hrevs. simpl. rewrite ?app_nil_r.
  apply Hin.
Qed.

Lemma finalized_dict_results mf vc ve vme vmc vmo d :
  finalized_dict mf vc ve vme vmc vmo d !! "converged" = Some vc
  ∧ finalized_dict mf vc ve vme vmc vmo d !! "e_tot" = Some ve
  ∧ finalized_dict mf vc ve vme vmc vmo d !! "mo_coeff" = Some vmc
  ∧ finalized_dict mf vc ve vme vmc vmo d !! "mo_occ" = Some vmo
  ∧ finalized_dict mf vc ve vme vmc vmo d !! "kernel" = Some (VMfKernel mf).
Proof. unfold finalized_dict. repeat split; solve_lookup. Qed.

(** C7: on a ready base solver and without an initial guess,
    [fast_newton] returns whatever the numerical collaborators produce,
    in particular whatever the warm-start solve reports as [converged]:
    the warm-start iteration is run, then the refinement iteration is
    run from the warm-start orbitals and occupations, and the
    [converged] flag (and the energy) written onto the caller's handle
    [mf] is the one the refinement iteration produced. *)
Theorem refinement_follows_any_warm_start mf mc mo dm aux kw w o :
  heap w !! mf = Some o → solver_ready w o → kw !! "kernel" = None →
  guess_supplied mc mo dm = false →
  ∃ w' mf0 self0 mf1 self1 c occ,
    fast_newton scf from_dm aug_etb_for_dfbasis mf mc mo dm aux kw w
    = Ok mf w'
    ∧ kernel_calls (new_events w w')
      = [(mf0, self0, []); (mf1, self1, [c; occ])]
    ∧ solves (new_events w w')
      = [(mf0, self0, []); (mf1, self1, [c; occ])]
    ∧ c = r_mo_coeff (scf self0 []) ∧ occ = r_mo_occ (scf self0 [])
    ∧ attr w' mf1 "converged"
      = Some (VBool (r_converged (scf self1 [c; occ])))
    ∧ attr w' mf "converged"
      = Some (VBool (r_converged (scf self1 [c; occ])))
    ∧ attr w' mf "e_tot" = Some (r_e_tot (scf self1 [c; occ])).
Proof.
  intros Hmf Hr Hkw Hg.
  destruct (fast_newton_ok mf mc mo dm aux kw w o Hmf Hr Hkw) as [w' H].
  exists w'. pose proof H as Hrun. apply fast_newton_inv in H
    as (aux' & o' & n & mf1 & ap & d1 & gevs & wevs & revs & c & occ & sd & o1
        & vc & ve & vme & vmc & vmo & H).
  cbv zeta in H.
  destruct H as (_ & Haux & Hmf' & Hne & Hn & Htr & Hgev & Hd1 & Hap & R1 & R2
                 & R3 & R4 & Ho1 & V1 & V2 & _ & _ & _ & Hfin & Hb & Hk & Hnk
                 & Hguess).
  assert (o' = o) as -> by congruence. clear Hmf'.
  apply new_events_app in Htr. rewrite Htr.
  unfold guess_supplied in Hg.
  destruct Hguess as [(Hdm & _)|[(Hdm & Hc & Ho & _)|(Hdm & Hmiss & Hw)]];
    [by rewrite Hdm in Hg | by rewrite Hdm, Hc, Ho in Hg |].
  destruct Hw as (mf0 & o0 & cv & nv & evs0 & Hw). cbv zeta in Hw.
  destruct Hw as (Hne0 & Hne1 & _ & -> & W1 & W2 & W3 & -> & Hmf0 & _ & _
                  & _ & _ & Hwk & _).
  destruct (Hwk (ready_kernel _ _ Hr)) as (Hs0 & -> & -> & _).
  set (self0 := Obj (DFHF (obj_class o)) (warm_start_dict aux' ap (obj_dict o)))
    in *.
  set (self1 := Obj (DFHF (NewtonAH (obj_class o)))
                  (<["_naoaux" := nv]> (<["_cderi" := cv]> d1))) in *.
  assert (kernel_of_class self1) as Hk1.
  { unfold kernel_of_class. simpl. rewrite !lookup_insert_ne by done.
    rewrite Hd1 by done. apply lookup_union_None. split; [done|].
    rewrite lookup_insert_ne by done. apply (ready_kernel _ _ Hr). }
  destruct (Hk Hk1) as (Hs1 & -> & -> & _).
  destruct (grid_steps_only _ Hgev) as (_ & _ & G3 & _).
  pose proof (finalized_dict_results mf
                (VBool (r_converged (scf self1
                   [r_mo_coeff (scf self0 []); r_mo_occ (scf self0 [])])))
                (r_e_tot (scf self1
                   [r_mo_coeff (scf self0 []); r_mo_occ (scf self0 [])]))
                vme vmc vmo (obj_dict o)) as (F1 & F2 & _).
  exists mf0, self0, mf1, self1, (r_mo_coeff (scf self0 [])),
    (r_mo_occ (scf self0 [])).
  split; [done|].
  split. { by rewrite warm_run_calls. }
  split.
  { change (EvDecorate mf n :: EvDecorate n mf1 :: gevs ++ ?x)
      with ([EvDecorate mf n; EvDecorate n mf1] ++ gevs ++ x).
    change (EvCall mf1 self1 ?a :: revs) with ([EvCall mf1 self1 a] ++ revs).
    rewrite !solves_app, G3, Hs0, Hs1. done. }
  split; [done|]. split; [done|].
  split. { unfold attr. by rewrite Ho1. }
  split. { unfold attr. by rewrite Hfin. }
  unfold attr. by rewrite Hfin.
Qed.

(** Once [kernel] is the guard closure of the handle itself, calling it
    only logs the warning and returns [e_tot]. *)
Lemma guarded_invoke_all mf final e argss : ∀ h tr,
  h !! mf = Some final →
  obj_dict final !! "kernel" = Some (VMfKernel mf) →
  obj_dict final !! "e_tot" = Some e →
  invoke_all scf mf argss (World h tr)
  = Ok (replicate (length argss) e)
       (World h (tr ++ flat_map
                   (λ args, [EvCall mf final args;
                             EvLog Warn mf msg_no_second_kernel]) argss)).
Proof.
  induction argss as [|args argss IH]; intros h tr Hf Hk He; simpl.
  - by rewrite app_nil_r.
  - unfold call_kernel, mf_kernel. fwd.
    rewrite (deref_ok mf (World h tr) final Hf). fwd. rewrite Hk. fwd.
    erewrite getattr_ok; [|exact Hf|exact He]. fwd.
    rewrite IH by done. fwd. by norm_trace.
Qed.

(** C8: after [fast_newton] has returned, calling [mf.kernel] again, any
    number of times and with any arguments, returns each time the energy
    cached on the handle, leaves the heap as it is (so [mo_coeff],
    [mo_occ] and every other attribute of every object are unchanged),
    and adds to the trace only the calls themselves and one warning per
    call: no iteration is run. *)
Theorem finalized_kernel_is_idempotent mf mc mo dm aux kw w r w' :
  fast_newton scf from_dm aug_etb_for_dfbasis mf mc mo dm aux kw w = Ok r w' →
  ∃ e final,
    r = mf
    ∧ heap w' !! mf = Some final
    ∧ obj_dict final !! "e_tot" = Some e
    ∧ ∀ argss,
        invoke_all scf mf argss w'
        = Ok (replicate (length argss) e)
             (World (heap w')
                (trace w' ++ flat_map
                   (λ args, [EvCall mf final args;
                             EvLog Warn mf msg_no_second_kernel]) argss))
        ∧ solves (events_of (invoke_all scf mf argss) w') = []
        ∧ logs (events_of (invoke_all scf mf argss) w')
          = replicate (length argss) (Warn, mf, msg_no_second_kernel).
Proof.
  intros H. apply fast_newton_inv in H
    as (aux' & o & n & mf1 & ap & d1 & gevs & wevs & revs & c & occ & sd & o1
        & vc & ve & vme & vmc & vmo & H).
  cbv zeta in H.
  destruct H as (-> & _ & _ & _ & _ & _ & _ & _ & _ & _ & _ & _ & _ & _ & _ & _
                 & _ & _ & _ & Hfin & _).
  pose proof (finalized_dict_results mf vc ve vme vmc vmo (obj_dict o))
    as (_ & F2 & _ & _ & F5).
  eexists ve, _. split; [done|]. split; [exact Hfin|]. split; [exact F2|].
  intros argss. destruct w' as [h tr]. simpl in Hfin.
  pose proof (guarded_invoke_all mf _ ve argss h tr Hfin F5 F2) as Hrun.
  split; [exact Hrun|].
  unfold events_of. rewrite Hrun. simpl.
  erewrite new_events_app by (simpl; reflexivity).
  clear. split; induction argss as [|a argss IH]; simpl; by f_equal.
Qed.


(** C10: when [fast_newton] is called with a density matrix [dm0], the
    supplied [mo_coeff] and [mo_occ] are discarded: the call behaves in
    every respect as the call without them, and when it returns the one
    [kernel] call, on the refined solver, has for arguments the orbitals
    and occupations that the [from_dm] of that solver makes of [dm0]. *)
Theorem density_matrix_takes_priority mf mc mo dm aux kw w :
  is_None dm = false →
  fast_newton scf from_dm aug_etb_for_dfbasis mf mc mo dm aux kw w
  = fast_newton scf from_dm aug_etb_for_dfbasis mf VNone VNone dm aux kw w
  ∧ ∀ r w',
      fast_newton scf from_dm aug_etb_for_dfbasis mf mc mo dm aux kw w
      = Ok r w' →
      ∃ mf1 self,
        kernel_calls (new_events w w')
        = [(mf1, self, [(from_dm self dm).1; (from_dm self dm).2])]
        ∧ newton_decorated (obj_class self) = true
        ∧ (∀ s, s ∈ solves (new_events w w') → s.1.1 = mf1).
Proof.
  intros Hdm. split.
  - unfold fast_newton, initial_guess. by rewrite Hdm.
  - intros r w' H.
    destruct (supplied_guess_run mf mc mo dm aux kw w r w') as
      (o & n & mf1 & self & _ & _ & _ & Hcls & Hcalls & Hsol & _); [|done|].
    { unfold guess_supplied. by rewrite Hdm. }
    exists mf1, self. rewrite Hdm in Hcalls.
    split; [done|]. split; [by rewrite Hcls|done].
Qed.

(* ===================================================================== *)
(** ** More on [fast_newton]                                              *)
(* ===================================================================== *)

Lemma getattr_missing l name w o :
  heap w !! l = Some o → obj_dict o !! name = None →
  getattr l name w = Raise (AttributeError l name) w.
Proof.
  intros Ho Hv. unfold getattr.
  rewrite (bind_ok _ _ _ _ _ (deref_ok _ _ _ Ho)). by rewrite Hv.
Qed.

Lemma finalized_dict_other mf vc ve vme vmc vmo d k :
  k ∉ result_attributes → k ≠ "kernel"%string →
  finalized_dict mf vc ve vme vmc vmo d !! k = d !! k.
Proof.
  unfold result_attributes. intros Hk Hker.
  rewrite !not_elem_of_cons in Hk. destruct Hk as (? & ? & ? & ? & ? & _).
  unfold finalized_dict. by rewrite !lookup_insert_ne.
Qed.

Lemma finalized_dict_mo_energy mf vc ve vme vmc vmo d :
  finalized_dict mf vc ve vme vmc vmo d !! "mo_energy" = Some vme.
Proof. unfold finalized_dict. solve_lookup. Qed.

(** The last [kernel] call of a run that returns is that of the refined
    solver. *)
Lemma last_call_is_refine mf n mf1 self c occ gevs wevs revs :
  kernel_calls revs = [] →
  last (kernel_calls
          (EvDecorate mf n :: EvDecorate n mf1 :: gevs ++ wevs
             ++ EvCall mf1 self [c; occ] :: revs))
  = Some (mf1, self, [c; occ]).
Proof.
  intros R1.
  change (EvDecorate mf n :: EvDecorate n mf1 :: gevs ++ wevs
            ++ EvCall mf1 self [c; occ] :: revs)
    with ([EvDecorate mf n; EvDecorate n mf1] ++ gevs ++ wevs
            ++ [EvCall mf1 self [c; occ]] ++ revs).
  rewrite !kernel_calls_app, R1, app_nil_r. simpl.
  rewrite !app_assoc. apply last_snoc.
Qed.

(** When [fast_newton] returns, it returns the handle it was given; on
    that handle it has written the five result attributes, with the
    values the refined solver holds, and [kernel]; the class of the
    handle and every other attribute ([conv_tol], [level_shift], the
    grids, ...) are as before the call. *)
Theorem only_results_are_written mf mc mo dm aux kw w r w' :
  fast_newton scf from_dm aug_etb_for_dfbasis mf mc mo dm aux kw w = Ok r w' →
  ∃ o final mf1 self1 args1 o1,
    r = mf
    ∧ heap w !! mf = Some o
    ∧ heap w' !! mf = Some final
    ∧ obj_class final = obj_class o
    ∧ last (kernel_calls (new_events w w')) = Some (mf1, self1, args1)
    ∧ mf1 ≠ mf
    ∧ heap w' !! mf1 = Some o1
    ∧ (∀ k, k ∈ result_attributes →
         is_Some (obj_dict o1 !! k)
         ∧ obj_dict final !! k = obj_dict o1 !! k)
    ∧ obj_dict final !! "kernel" = Some (VMfKernel mf)
    ∧ (∀ k, k ∉ result_attributes → k ≠ "kernel"%string →
         obj_dict final !! k = obj_dict o !! k).
Proof.
  intros H. apply fast_newton_inv in H
    as (aux' & o & n & mf1 & ap & d1 & gevs & wevs & revs & c & occ & sd & o1
        & vc & ve & vme & vmc & vmo & H).
  cbv zeta in H.
  destruct H as (-> & _ & Hmf & Hne & _ & Htr & _ & _ & _ & R1 & _ & _ & _
                 & Ho1 & V1 & V2 & V3 & V4 & V5 & Hfin & _).
  apply new_events_app in Htr. rewrite Htr.
  pose proof (finalized_dict_results mf vc ve vme vmc vmo (obj_dict o))
    as (F1 & F2 & F4 & F5 & F6).
  pose proof (finalized_dict_mo_energy mf vc ve vme vmc vmo (obj_dict o)) as F3.
  eexists o, _, mf1, _, [c; occ], o1.
  split; [done|]. split; [done|]. split; [exact Hfin|]. split; [done|].
  split. { by apply last_call_is_refine. }
  split; [done|]. split; [done|].
  split.
  { intros k Hk. unfold result_attributes in Hk. simpl.
    repeat (apply elem_of_cons in Hk as [->|Hk]; [split; [eauto|congruence]|]).
    by apply elem_of_nil in Hk. }
  split; [exact F6|].
  intros k Hk Hker. simpl. by apply finalized_dict_other.
Qed.

(** When [fast_newton] returns, each keyword argument is an attribute of
    the refined solver when its [kernel] is called, and the attributes
    the keyword arguments do not name are those of the base solver,
    except for the auxiliary basis, the grid pair and the tensor cache,
    which the pipeline sets itself. *)
Theorem keyword_arguments_reach_refined_solver mf mc mo dm aux kw w r w' :
  fast_newton scf from_dm aug_etb_for_dfbasis mf mc mo dm aux kw w = Ok r w' →
  ∃ o mf1 self1 args1,
    heap w !! mf = Some o
    ∧ last (kernel_calls (new_events w w')) = Some (mf1, self1, args1)
    ∧ ∀ k, k ≠ "grids"%string → k ≠ "_numint"%string →
        k ≠ "_cderi"%string → k ≠ "_naoaux"%string →
        (∀ v, kw !! k = Some v → obj_dict self1 !! k = Some v)
        ∧ (kw !! k = None → k ≠ "auxbasis"%string →
           obj_dict self1 !! k = obj_dict o !! k).
Proof.
  intros H. apply fast_newton_inv in H
    as (aux' & o & n & mf1 & ap & d1 & gevs & wevs & revs & c & occ & sd & o1
        & vc & ve & vme & vmc & vmo & H).
  cbv zeta in H.
  destruct H as (-> & _ & Hmf & Hne & _ & Htr & _ & Hd1 & _ & R1 & _ & _ & _
                 & _ & _ & _ & _ & _ & _ & _ & _ & _ & _ & Hguess).
  apply new_events_app in Htr. rewrite Htr.
  eexists o, mf1, _, [c; occ].
  split; [done|]. split. { by apply last_call_is_refine. }
  intros k K1 K2 K3 K4. simpl.
  assert (sd !! k = (kw ∪ <["auxbasis" := aux']> (obj_dict o)) !! k) as ->.
  { destruct Hguess as [(_ & _ & -> & _)|[(_ & _ & _ & _ & -> & _)|(_ & _ & Hw)]];
      [by apply Hd1 | by apply Hd1 |].
    destruct Hw as (mf0 & o0 & cv & nv & evs0 & Hw). cbv zeta in Hw.
    destruct Hw as (_ & _ & _ & _ & _ & _ & _ & -> & _).
    rewrite !lookup_insert_ne by done. by apply Hd1. }
  split.
  - intros v Hv. by apply lookup_union_Some_l.
  - intros Hnone Haux. rewrite lookup_union_r by done.
    by rewrite lookup_insert_ne.
Qed.

Lemma choose_auxbasis_value mf aux w aux' w1 :
  choose_auxbasis aug_etb_for_dfbasis mf aux w = Ok aux' w1 →
  (is_None aux = false ∧ aux' = aux)
  ∨ (is_None aux = true
     ∧ ∃ mol, attr w mf "mol" = Some mol
              ∧ aux' = aug_etb_for_dfbasis mol "ahlrichs" (5 # 2)).
Proof.
  unfold choose_auxbasis. destruct (is_None aux).
  - intros H. right. split; [done|].
    apply bind_inv in H as (mol & w2 & H1 & H).
    apply getattr_inv in H1 as [(o & Ho & Hmol) ->].
    apply ret_inv in H as [-> _]. exists mol. split; [|done].
    unfold attr. by rewrite Ho.
  - intros H. left. by apply ret_inv in H as [-> _].
Qed.

(** When [fast_newton] returns, every solver whose [kernel] was called
    (the warm-start solver, the refined solver) carries the same
    auxiliary basis, unless a keyword argument names [auxbasis]: the one
    the caller supplied, and if none was supplied the basis
    [aug_etb_for_dfbasis] gives for [mf.mol], ['ahlrichs'] and beta
    2.5. *)
Theorem one_auxiliary_basis_for_both_phases mf mc mo dm aux kw w r w' :
  fast_newton scf from_dm aug_etb_for_dfbasis mf mc mo dm aux kw w = Ok r w' →
  kw !! "auxbasis" = None →
  ∃ aux',
    ((is_None aux = false ∧ aux' = aux)
     ∨ (is_None aux = true
        ∧ ∃ mol, attr w mf "mol" = Some mol
                 ∧ aux' = aug_etb_for_dfbasis mol "ahlrichs" (5 # 2)))
    ∧ kernel_calls (new_events w w') ≠ []
    ∧ ∀ l self args, (l, self, args) ∈ kernel_calls (new_events w w') →
        obj_dict self !! "auxbasis" = Some aux'.
Proof.
  intros H Hkw. apply fast_newton_inv in H
    as (aux' & o & n & mf1 & ap & d1 & gevs & wevs & revs & c & occ & sd & o1
        & vc & ve & vme & vmc & vmo & H).
  cbv zeta in H.
  destruct H as (-> & Haux & Hmf & Hne & _ & Htr & Hgev & Hd1 & _ & R1 & _ & _
                 & _ & _ & _ & _ & _ & _ & _ & _ & _ & _ & _ & Hguess).
  apply new_events_app in Htr. rewrite Htr.
  exists aux'. split; [by apply choose_auxbasis_value in Haux|].
  destruct (grid_steps_only _ Hgev) as (G1 & _).
  assert (d1 !! "auxbasis" = Some aux') as Hd1aux.
  { rewrite Hd1 by done. rewrite lookup_union_r by done.
    by rewrite lookup_insert_eq. }
  change (EvDecorate mf n :: EvDecorate n mf1 :: gevs ++ ?x)
    with ([EvDecorate mf n; EvDecorate n mf1] ++ gevs ++ x).
  change (EvCall mf1 ?s ?a :: revs) with ([EvCall mf1 s a] ++ revs).
  destruct Hguess as [(_ & -> & -> & _)|[(_ & _ & _ & -> & -> & _)
                                        |(_ & _ & Hw)]].
  - rewrite !kernel_calls_app, G1, R1. simpl. split; [done|].
    intros l self args [= -> -> ->]%list_elem_of_singleton. done.
  - rewrite !kernel_calls_app, G1, R1. simpl. split; [done|].
    intros l self args [= -> -> ->]%list_elem_of_singleton. done.
  - destruct Hw as (mf0 & o0 & cv & nv & evs0 & Hw). cbv zeta in Hw.
    destruct Hw as (_ & _ & _ & -> & W1 & _ & _ & -> & _).
    rewrite !kernel_calls_app, G1, R1, W1. simpl. split; [done|].
    intros l self args Hin.
    apply elem_of_cons in Hin as [[= -> -> ->]|Hin].
    + simpl. unfold warm_start_dict.
      destruct (obj_dict o !! "grids"), ap as [[??]|],
        (obj_dict o !! "level_shift") as [ls|];
        try destruct (eq_zero ls); solve_lookup.
    + apply list_elem_of_singleton in Hin as [= -> -> ->]. simpl.
      by rewrite !lookup_insert_ne.
Qed.



(** A partial guess is ignored: without a density matrix and with only
    one of [mo_coeff], [mo_occ] (or none), the call behaves in every
    respect as the call without any guess, so the warm start runs and
    overwrites the one supplied. *)
Theorem partial_guess_is_ignored mf mc mo dm aux kw w :
  is_None dm = true → is_None mc || is_None mo = true →
  fast_newton scf from_dm aug_etb_for_dfbasis mf mc mo dm aux kw w
  = fast_newton scf from_dm aug_etb_for_dfbasis mf VNone VNone dm aux kw w.
Proof.
  intros Hdm Hm. unfold fast_newton, initial_guess. rewrite Hdm, Hm. done.
Qed.

(** Without an auxiliary basis from the caller, [fast_newton] reads
    [mf.mol] first: on a handle without [mol] it raises the attribute
    error at once, before anything is built, logged or changed. *)
Theorem default_auxbasis_needs_mol mf mc mo dm aux kw w o :
  heap w !! mf = Some o → obj_dict o !! "mol" = None → is_None aux = true →
  fast_newton scf from_dm aug_etb_for_dfbasis mf mc mo dm aux kw w
  = Raise (AttributeError mf "mol") w.
Proof.
  intros Ho Hmol Haux. unfold fast_newton. apply bind_raise.
  unfold choose_auxbasis. rewrite Haux. apply bind_raise.
  by eapply getattr_missing.
Qed.

Lemma build_refined_numint_missing mf aux kw w o :
  heap w !! mf = Some o →
  is_Some (obj_dict o !! "grids") → is_Some (obj_dict o !! "mol") →
  obj_dict o !! "_numint" = None →
  ∃ n mf1 g h,
    build_refined mf aux kw w
    = Raise (AttributeError mf "_numint")
        (World h (trace w ++ [EvDecorate mf n; EvDecorate n mf1; EvGrids g]))
    ∧ h !! mf = Some o.
Proof.
  intros Ho [gv Hgv] [mol Hmol] Hni. unfold build_refined.
  rewrite (bind_ok _ _ _ _ _ (newton_ok _ _ _ Ho)).
  set (n := fresh (dom (heap w))).
  assert (heap w !! n = None) as Hn by apply fresh_None.
  assert (n ≠ mf) as Hnmf by (intros E; rewrite E in Hn; congruence).
  erewrite bind_ok; [|by apply density_fit_ok; solve_lookup].
  cbn [heap trace obj_class obj_dict].
  set (h1 := <[n := _]> (heap w)).
  set (l := fresh (dom h1)).
  assert (h1 !! l = None) as Hl by apply fresh_None.
  apply lookup_insert_None in Hl as [Hl Hnl].
  assert (l ≠ mf) as Hlmf by (intros E; rewrite E in Hl; congruence).
  erewrite bind_ok; [|by apply setattrs_kwargs; solve_lookup].
  cbn [heap trace obj_class obj_dict]. rewrite insert_insert_eq.
  erewrite bind_ok; [|apply hasattr_ok; unfold h1; solve_lookup].
  rewrite Hgv, bool_decide_eq_true_2 by eauto.
  erewrite bind_ok; [|eapply getattr_ok; [unfold h1; solve_lookup|done]].
  unfold gen_grid_Grids. fwd.
  set (h2 := <[l := _]> h1).
  set (g := fresh (dom h2)).
  assert (h2 !! g = None) as Hg by apply fresh_None.
  apply lookup_insert_None in Hg as [Hg Hgl].
  apply lookup_insert_None in Hg as [Hg Hgn].
  assert (g ≠ mf) as Hgmf by (intros E; rewrite E in Hg; congruence).
  repeat (erewrite setattr_ok by (unfold h2, h1; solve_lookup); fwd).
  rewrite !insert_insert_eq.
  erewrite getattr_missing; [|unfold h2, h1; solve_lookup|done].
  eexists n, l, g, _. split; [by norm_trace|].
  unfold h2, h1. solve_lookup.
Qed.

(** The integration evaluator is read without a test: on a base solver
    that has [grids] (and [mol]) and no [_numint], [fast_newton] raises
    the attribute error for [_numint], after it has built the refined
    solver and generated the coarse grid, before any [kernel] is called;
    the caller's handle is as it was. *)
Theorem grids_without_numint_raises mf mc mo dm aux kw w o :
  heap w !! mf = Some o →
  is_Some (obj_dict o !! "grids") → is_Some (obj_dict o !! "mol") →
  obj_dict o !! "_numint" = None →
  ∃ w' g,
    fast_newton scf from_dm aug_etb_for_dfbasis mf mc mo dm aux kw w
    = Raise (AttributeError mf "_numint") w'
    ∧ heap w' !! mf = Some o
    ∧ grid_steps (new_events w w') = [EvGrids g]
    ∧ kernel_calls (new_events w w') = [].
Proof.
  intros Ho Hg Hmol Hni. unfold fast_newton.
  destruct (choose_auxbasis_ok mf aux w o Ho Hmol) as [aux' Ha].
  rewrite (bind_ok _ _ _ _ _ Ha).
  destruct (build_refined_numint_missing mf aux' kw w o Ho Hg Hmol Hni)
    as (n & mf1 & g & h & Hb & Hmf).
  rewrite (bind_raise _ _ _ _ _ Hb).
  eexists _, g. split; [done|]. split; [done|].
  by erewrite new_events_app by (simpl; reflexivity).
Qed.

Lemma build_refined_plain_ok mf aux kw w o :
  heap w !! mf = Some o → obj_dict o !! "grids" = None →
  ∃ mf1 w1, build_refined mf aux kw w = Ok (mf1, None) w1.
Proof.
  intros Ho Hgr. unfold build_refined.
  rewrite (bind_ok _ _ _ _ _ (newton_ok _ _ _ Ho)).
  set (n := fresh (dom (heap w))).
  assert (heap w !! n = None) as Hn by apply fresh_None.
  assert (n ≠ mf) as Hnmf by (intros E; rewrite E in Hn; congruence).
  erewrite bind_ok; [|by apply density_fit_ok; solve_lookup].
  cbn [heap trace obj_class obj_dict].
  set (h1 := <[n := _]> (heap w)).
  set (l := fresh (dom h1)).
  assert (h1 !! l = None) as Hl by apply fresh_None.
  apply lookup_insert_None in Hl as [Hl Hnl].
  assert (l ≠ mf) as Hlmf by (intros E; rewrite E in Hl; congruence).
  erewrite bind_ok; [|by apply setattrs_kwargs; solve_lookup].
  cbn [heap trace obj_class obj_dict]. rewrite insert_insert_eq.
  erewrite bind_ok; [|apply hasattr_ok; unfold h1; solve_lookup].
  rewrite Hgr, bool_decide_eq_false_2 by (by intros [? ?]). eauto.
Qed.

Lemma warm_start_level_shift_missing mf mf1 ap aux w o :
  heap w !! mf = Some o → obj_dict o !! "level_shift" = None →
  ∃ mf0 h,
    warm_start scf mf mf1 ap aux w
    = Raise (AttributeError mf0 "level_shift")
        (World h (trace w ++
           [EvLog Note mf msg_guess_rule; EvLog Note mf msg_guess_begin;
            EvLog Note mf msg_guess_rule; EvDecorate mf mf0]))
    ∧ mf0 ≠ mf ∧ h !! mf = Some o.
Proof.
  intros Ho Hls. unfold warm_start. fwd.
  erewrite density_fit_ok by solve_lookup. fwd.
  set (l := fresh (dom (heap w))).
  assert (heap w !! l = None) as Hl by apply fresh_None.
  assert (l ≠ mf) as Hlmf by (intros E; rewrite E in Hl; congruence).
  repeat (erewrite setattr_ok by solve_lookup; fwd).
  rewrite !insert_insert_eq.
  erewrite getattr_missing; [|solve_lookup|solve_lookup].
  eexists l, _. split; [by norm_trace|]. split; [done|]. solve_lookup.
Qed.

(** The level shift is read without a test: when the warm start runs on
    a base solver without [level_shift] (and without [grids]),
    [fast_newton] raises the attribute error for [level_shift] of the
    warm-start solver it has just built from [mf], before any [kernel]
    is called; the caller's handle is as it was. *)
Theorem warm_start_needs_level_shift mf mc mo dm aux kw w o :
  heap w !! mf = Some o →
  obj_dict o !! "level_shift" = None → obj_dict o !! "grids" = None →
  is_None aux = false ∨ is_Some (obj_dict o !! "mol") →
  guess_supplied mc mo dm = false →
  ∃ mf0 w',
    fast_newton scf from_dm aug_etb_for_dfbasis mf mc mo dm aux kw w
    = Raise (AttributeError mf0 "level_shift") w'
    ∧ mf0 ≠ mf
    ∧ (mf, mf0) ∈ decorations (new_events w w')
    ∧ kernel_calls (new_events w w') = []
    ∧ heap w' !! mf = Some o.
Proof.
  intros Ho Hls Hgr Haux Hg. unfold fast_newton.
  assert (∃ aux', choose_auxbasis aug_etb_for_dfbasis mf aux w = Ok aux' w)
    as [aux' Ha].
  { destruct Haux as [Haux|Hmol]; [|by eapply choose_auxbasis_ok].
    unfold choose_auxbasis. rewrite Haux. eauto. }
  rewrite (bind_ok _ _ _ _ _ Ha).
  destruct (build_refined_plain_ok mf aux' kw w o Ho Hgr) as (mf1 & w1 & Hb).
  rewrite (bind_ok _ _ _ _ _ Hb). cbv beta iota.
  apply build_refined_inv in Hb
    as (o' & n & d1 & gevs & Hmf0 & Hmf' & Hne & Hn & Hmf1 & Htr1 & Hgev & Hd1
        & _ & -> & _).
  assert (o' = o) as -> by congruence. clear Hmf0.
  destruct (warm_start_level_shift_missing mf mf1 None aux' w1 o Hmf' Hls)
    as (mf0 & h & Hws & Hne0 & Hh).
  unfold guess_supplied in Hg. apply orb_false_elim in Hg as [Hdm Hg].
  apply negb_false_iff in Hdm.
  assert (is_None mc || is_None mo = true) as Hmiss.
  { destruct (is_None mc), (is_None mo); done. }
  unfold initial_guess. rewrite Hdm, Hmiss. simpl.
  rewrite (bind_raise _ _ _ _ _ (bind_raise _ _ _ _ _ Hws)).
  exists mf0, (World h (trace w1 ++
           [EvLog Note mf msg_guess_rule; EvLog Note mf msg_guess_begin;
            EvLog Note mf msg_guess_rule; EvDecorate mf mf0])).
  split; [done|]. split; [done|].
  assert (new_events w (World h (trace w1 ++
           [EvLog Note mf msg_guess_rule; EvLog Note mf msg_guess_begin;
            EvLog Note mf msg_guess_rule; EvDecorate mf mf0]))
          = [EvDecorate mf n; EvDecorate n mf1;
             EvLog Note mf msg_guess_rule; EvLog Note mf msg_guess_begin;
             EvLog Note mf msg_guess_rule; EvDecorate mf mf0]) as ->.
  { apply new_events_app. simpl. rewrite Htr1. by norm_trace. }
  split. { simpl. right. right. left. }
  split; done.
Qed.

(** [fast_scf] logs that it will be removed and then is [fast_newton]
    without a guess: on a ready base solver it returns the handle, the
    first thing it adds to the trace is the warning, the warm start and
    the refinement both run, and the handle ends up with its [kernel]
    replaced. *)
Theorem fast_scf_warns_and_runs_both_phases mf w o :
  heap w !! mf = Some o → solver_ready w o →
  ∃ w' rest mf0 self0 mf1 self1 args1,
    fast_scf scf from_dm aug_etb_for_dfbasis mf w = Ok mf w'
    ∧ new_events w w' = EvLog Warn mf msg_fast_scf :: rest
    ∧ kernel_calls rest = [(mf0, self0, []); (mf1, self1, args1)]
    ∧ attr w' mf "kernel" = Some (VMfKernel mf).
Proof.
  intros Ho Hr. unfold fast_scf. fwd.
  set (w0 := World (heap w) (trace w ++ [EvLog Warn mf msg_fast_scf])).
  assert (solver_ready w0 o) as Hr0.
  { destruct Hr. by split. }
  destruct (fast_newton_ok mf VNone VNone VNone VNone ∅ w0 o Ho Hr0
              (lookup_empty _)) as [w' H].
  pose proof H as Hrun. apply fast_newton_inv in H
    as (aux' & o' & n & mf1 & ap & d1 & gevs & wevs & revs & c & occ & sd & o1
        & vc & ve & vme & vmc & vmo & H).
  cbv zeta in H.
  destruct H as (_ & _ & _ & _ & _ & Htr & Hgev & _ & _ & R1 & _ & _ & _
                 & _ & _ & _ & _ & _ & _ & Hfin & _ & _ & _ & Hguess).
  destruct Hguess as [(Hdm & _)|[(_ & Hc & _)|(_ & _ & Hw)]]; [done|done|].
  destruct Hw as (mf0 & o0 & cv & nv & evs0 & Hw). cbv zeta in Hw.
  destruct Hw as (_ & _ & _ & -> & W1 & _ & _ & -> & _).
  match type of Htr with
  | _ = _ ++ ?rest => exists w', rest; eexists mf0, _, mf1, _, [c; occ]
  end.
  split; [exact Hrun|].
  split. { apply new_events_app. rewrite Htr. unfold w0. cbn [trace].
           by rewrite <- app_assoc. }
  split. { by rewrite warm_run_calls. }
  unfold attr. rewrite Hfin. simpl.
  by destruct (finalized_dict_results mf vc ve vme vmc vmo (obj_dict o'))
    as (_ & _ & _ & _ & ?).
Qed.

(** The guard installed by [fast_newton] reads [mf.e_tot] when it is
    called: if the energy on the handle is changed after [fast_newton]
    has returned, a later [mf.kernel] returns the new value, still
    without running any iteration. *)
Theorem guard_returns_current_energy mf mc mo dm aux kw w r w' x args :
  fast_newton scf from_dm aug_etb_for_dfbasis mf mc mo dm aux kw w = Ok r w' →
  ∃ w'',
    (setattr mf "e_tot" x ≫= λ _, call_kernel scf mf args) w' = Ok x w''
    ∧ solves (new_events w' w'') = []
    ∧ logs (new_events w' w'') = [(Warn, mf, msg_no_second_kernel)].
Proof.
  intros H. apply fast_newton_inv in H
    as (aux' & o & n & mf1 & ap & d1 & gevs & wevs & revs & c & occ & sd & o1
        & vc & ve & vme & vmc & vmo & H).
  cbv zeta in H.
  destruct H as (-> & _ & _ & _ & _ & _ & _ & _ & _ & _ & _ & _ & _ & _ & _ & _
                 & _ & _ & _ & Hfin & _).
  pose proof (finalized_dict_results mf vc ve vme vmc vmo (obj_dict o))
    as (_ & _ & _ & _ & F5).
  rewrite (bind_ok _ _ _ _ _ (setattr_ok _ _ _ _ _ Hfin)).
  unfold call_kernel, mf_kernel. fwd.
  erewrite deref_ok by solve_lookup. fwd.
  rewrite lookup_insert_ne by done. rewrite F5. fwd.
  erewrite getattr_ok; [|solve_lookup|solve_lookup].
  eexists. split; [done|].
  erewrite new_events_app by (simpl; rewrite <- app_assoc; reflexivity).
  done.
Qed.

End PipelineFacts.

(* ===================================================================== *)
(** ** The claims on the sample inputs                                    *)
(* ===================================================================== *)

Module Runs.
Import Selector Samples.

Lemma h2_ready : solver_ready h2_world rhf_h2.
Proof.
  split.
  - exists (VStr "H2"). vm_compute. reflexivity.
  - exists (VNum 0). vm_compute. reflexivity.
  - vm_compute. reflexivity.
  - intros H. vm_compute in H. discriminate.
  - intros [v H]. vm_compute in H. discriminate.
Defined.

(** C1, as stated, fails: for the H2 solver the refinement phase is run
    by a solver of class density-fit over Newton over [hf.RHF], whereas
    Newton refinement applied on top of density fitting, as the claim
    has it, gives class Newton over density-fit over [hf.RHF]. *)
Lemma refined_solver_is_not_newton_over_fit :
  refine_call_class
    (events_of
       (fast_newton scf_sample from_dm_sample aug_etb_sample
          0%nat (VData 5) (VData 6) VNone (VStr "weigend") ∅) h2_world)
  = Some (DFHF (NewtonAH (Solver hf_RHF)))
  ∧ built_class (spec_refined 0%nat (VStr "weigend") h2_world)
    = Some (NewtonAH (DFHF (Solver hf_RHF)))
  ∧ refine_call_class
      (events_of
         (fast_newton scf_sample from_dm_sample aug_etb_sample
            0%nat (VData 5) (VData 6) VNone (VStr "weigend") ∅) h2_world)
    ≠ built_class (spec_refined 0%nat (VStr "weigend") h2_world).
Proof.
  split; [vm_compute; reflexivity|]. split; [vm_compute; reflexivity|].
  intros H. vm_compute in H. discriminate.
Qed.

Lemma refined_solver_is_fit_over_newton_witness :
  h2_run_seeded = Ok 0%nat (final_world h2_run_seeded)
  ∧ refine_call_class (new_events h2_world (final_world h2_run_seeded))
    = Some (DFHF (NewtonAH (Solver hf_RHF))).
Proof.
  assert (Hrun : h2_run_seeded = Ok 0%nat (final_world h2_run_seeded))
    by (vm_compute; reflexivity).
  split; [exact Hrun|].
  destruct (refined_solver_is_fit_over_newton scf_sample from_dm_sample
              aug_etb_sample 0%nat (VData 5) (VData 6) VNone (VStr "weigend")
              ∅ h2_world 0%nat (final_world h2_run_seeded) Hrun)
    as (o & aux' & n & mf1 & self & args & Hmf & _ & _ & _ & _ & Hcls & _).
  vm_compute in Hmf. injection Hmf as <-. exact Hcls.
Defined.

Lemma supplied_guess_skips_warm_start_witness :
  guess_supplied (VData 5) (VData 6) VNone = true
  ∧ Forall (λ e, warm_start_event e = false)
      (events_of
         (fast_newton scf_sample from_dm_sample aug_etb_sample
            0%nat (VData 5) (VData 6) VNone (VStr "weigend") ∅) h2_world).
Proof.
  split; [reflexivity|].
  apply (supplied_guess_skips_warm_start scf_sample from_dm_sample
           aug_etb_sample 0%nat (VData 5) (VData 6) VNone (VStr "weigend")
           ∅ h2_world).
  reflexivity.
Defined.

Lemma warm_start_solver_is_loosened_fit_witness :
  (1 # 100000 < 1 # 2)%Q
  ∧ guess_supplied VNone VNone VNone = false
  ∧ h2_run = Ok 0%nat (final_world h2_run)
  ∧ ∃ mf0 self0 call1,
      kernel_calls (new_events h2_world (final_world h2_run))
      = [(mf0, self0, []); call1]
      ∧ obj_class self0 = DFHF (Solver hf_RHF)
      ∧ obj_dict self0 !! "conv_tol" = Some (VNum (1 # 4))
      ∧ obj_dict self0 !! "conv_tol_grad" = Some (VNum (1 # 2))
      ∧ loosened (1 # 100000) (VNum (1 # 2))
      ∧ obj_dict self0 !! "level_shift" = Some (VNum (3 # 10)).
Proof.
  assert (Hrun : h2_run = Ok 0%nat (final_world h2_run))
    by (vm_compute; reflexivity).
  assert (Hgrad : (1 # 100000 < 1 # 2)%Q) by reflexivity.
  split; [exact Hgrad|]. split; [reflexivity|]. split; [exact Hrun|].
  destruct (warm_start_solver_is_loosened_fit scf_sample from_dm_sample
              aug_etb_sample (1 # 100000) 0%nat VNone VNone VNone VNone ∅
              h2_world 0%nat (final_world h2_run) Hgrad eq_refl Hrun)
    as (o & aux' & mf0 & self0 & call1 & ls & Hmf & _ & Hcalls & _ & Hcls & _
        & _ & _ & Htol & _ & Hgtol & Hloose & Hls & Hshift & _).
  vm_compute in Hmf. injection Hmf as <-.
  vm_compute in Hls. injection Hls as <-.
  exists mf0, self0, call1. repeat split; assumption.
Defined.

Lemma warm_start_cache_is_shared_witness :
  guess_supplied VNone VNone VNone = false
  ∧ h2_run = Ok 0%nat (final_world h2_run)
  ∧ ∃ mf0 self0 mf1 self1 args1 cv,
      kernel_calls (new_events h2_world (final_world h2_run))
      = [(mf0, self0, []); (mf1, self1, args1)]
      ∧ attr (final_world h2_run) mf0 "_cderi" = Some cv
      ∧ obj_dict self1 !! "_cderi" = Some cv
      ∧ cv ≠ VNone.
Proof.
  assert (Hrun : h2_run = Ok 0%nat (final_world h2_run))
    by (vm_compute; reflexivity).
  split; [reflexivity|]. split; [exact Hrun|].
  destruct (warm_start_cache_is_shared scf_sample from_dm_sample
              aug_etb_sample 0%nat VNone VNone VNone VNone ∅
              h2_world 0%nat (final_world h2_run) eq_refl Hrun)
    as (o & mf0 & self0 & mf1 & self1 & args1 & cv & nv & Hmf & Hcalls & _
        & Hcv0 & _ & Hcv1 & _ & Hk).
  vm_compute in Hmf. injection Hmf as <-.
  exists mf0, self0, mf1, self1, args1, cv.
  split; [exact Hcalls|]. split; [exact Hcv0|]. split; [exact Hcv1|].
  apply Hk. vm_compute. reflexivity.
Defined.

(** The sample iteration does not converge in the warm start and
    converges in the refinement: the handle ends up converged. *)
Lemma refinement_follows_any_warm_start_witness :
  heap h2_world !! 0%nat = Some rhf_h2
  ∧ r_converged (scf_sample rhf_h2 []) = false
  ∧ ∃ w', h2_run = Ok 0%nat w'
          ∧ attr w' 0%nat "converged" = Some (VBool true).
Proof.
  split; [reflexivity|]. split; [reflexivity|].
  destruct (refinement_follows_any_warm_start scf_sample from_dm_sample
              aug_etb_sample 0%nat VNone VNone VNone VNone ∅ h2_world rhf_h2
              eq_refl h2_ready (lookup_empty _) eq_refl)
    as (w' & mf0 & self0 & mf1 & self1 & c & occ & Hrun & _ & _ & _ & _ & _
        & Hconv & _).
  exists w'. split; [exact Hrun|]. exact Hconv.
Defined.

Lemma finalized_kernel_is_idempotent_witness :
  h2_run = Ok 0%nat (final_world h2_run)
  ∧ ∃ e, attr (final_world h2_run) 0%nat "e_tot" = Some e
         ∧ ∃ w'', invoke_all scf_sample 0%nat [[]; [VData 9]]
                    (final_world h2_run) = Ok [e; e] w''
                  ∧ heap w'' = heap (final_world h2_run).
Proof.
  assert (Hrun : h2_run = Ok 0%nat (final_world h2_run))
    by (vm_compute; reflexivity).
  split; [exact Hrun|].
  destruct (finalized_kernel_is_idempotent scf_sample from_dm_sample
              aug_etb_sample 0%nat VNone VNone VNone VNone ∅
              h2_world 0%nat (final_world h2_run) Hrun)
    as (e & final & _ & Hfin & He & Hall).
  exists e. split. { unfold attr. rewrite Hfin. exact He. }
  destruct (Hall [[]; [VData 9]]) as (Hinv & _).
  eexists. split; [exact Hinv|]. reflexivity.
Defined.


Lemma density_matrix_takes_priority_witness :
  is_None (VData 7) = false
  ∧ h2_run_dm
    = fast_newton scf_sample from_dm_sample aug_etb_sample
        0%nat VNone VNone (VData 7) VNone ∅ h2_world.
Proof.
  split; [reflexivity|].
  apply (density_matrix_takes_priority scf_sample from_dm_sample
           aug_etb_sample 0%nat (VData 5) (VData 6) (VData 7) VNone ∅
           h2_world).
  reflexivity.
Defined.

End Runs.

(* ===================================================================== *)
(** ** The further properties on the sample inputs                        *)
(* ===================================================================== *)

Module ExtraRuns.
Import Selector Samples.

Lemma only_results_are_written_witness :
  h2_run = Ok 0%nat (final_world h2_run)
  ∧ attr (final_world h2_run) 0%nat "conv_tol"
    = Some (VNum default_conv_tol)
  ∧ attr (final_world h2_run) 0%nat "level_shift" = Some (VNum 0).
Proof.
  assert (Hrun : h2_run = Ok 0%nat (final_world h2_run))
    by (vm_compute; reflexivity).
  split; [exact Hrun|].
  destruct (only_results_are_written scf_sample from_dm_sample
              aug_etb_sample 0%nat VNone VNone VNone VNone ∅
              h2_world 0%nat (final_world h2_run) Hrun)
    as (o & final & mf1 & self1 & args1 & o1 & _ & Ho & Hfin & _ & _ & _ & _
        & _ & _ & Hother).
  vm_compute in Ho. injection Ho as <-.
  unfold attr. rewrite Hfin. simpl.
  split; (rewrite Hother; [vm_compute; reflexivity | | discriminate]);
    unfold result_attributes; rewrite !not_elem_of_cons;
    (repeat split; [discriminate..|apply not_elem_of_nil]).
Defined.

Lemma keyword_arguments_reach_refined_solver_witness :
  h2_run_kwargs = Ok 0%nat (final_world h2_run_kwargs)
  ∧ ∃ mf1 self1 args1,
      last (kernel_calls (new_events h2_world (final_world h2_run_kwargs)))
      = Some (mf1, self1, args1)
      ∧ obj_dict self1 !! "max_cycle_inner" = Some (VNum 12).
Proof.
  assert (Hrun : h2_run_kwargs = Ok 0%nat (final_world h2_run_kwargs))
    by (vm_compute; reflexivity).
  split; [exact Hrun|].
  destruct (keyword_arguments_reach_refined_solver scf_sample from_dm_sample
              aug_etb_sample 0%nat (VData 5) (VData 6) VNone VNone
              {[ "max_cycle_inner" := VNum 12 ]}
              h2_world 0%nat (final_world h2_run_kwargs) Hrun)
    as (o & mf1 & self1 & args1 & _ & Hlast & Hkw).
  exists mf1, self1, args1. split; [exact Hlast|].
  destruct (Hkw "max_cycle_inner"%string) as [Hset _];
    [discriminate | discriminate | discriminate | discriminate |].
  apply Hset. vm_compute. reflexivity.
Defined.

Lemma one_auxiliary_basis_for_both_phases_witness :
  h2_run = Ok 0%nat (final_world h2_run)
  ∧ ∀ l self args,
      (l, self, args)
        ∈ kernel_calls (new_events h2_world (final_world h2_run)) →
      obj_dict self !! "auxbasis" = Some (VStr "etb").
Proof.
  assert (Hrun : h2_run = Ok 0%nat (final_world h2_run))
    by (vm_compute; reflexivity).
  split; [exact Hrun|].
  destruct (one_auxiliary_basis_for_both_phases scf_sample from_dm_sample
              aug_etb_sample 0%nat VNone VNone VNone VNone ∅
              h2_world 0%nat (final_world h2_run) Hrun (lookup_empty _))
    as (aux' & [[Hn _]|(_ & mol & _ & ->)] & _ & Hall).
  - discriminate.
  - exact Hall.
Defined.


Lemma partial_guess_is_ignored_witness :
  fast_newton scf_sample from_dm_sample aug_etb_sample
    0%nat (VData 5) VNone VNone VNone ∅ h2_world
  = h2_run.
Proof.
  apply (partial_guess_is_ignored scf_sample from_dm_sample aug_etb_sample
           0%nat (VData 5) VNone VNone VNone ∅ h2_world); reflexivity.
Defined.

Lemma default_auxbasis_needs_mol_witness :
  fast_newton scf_sample from_dm_sample aug_etb_sample
    0%nat VNone VNone VNone VNone ∅ no_mol_world
  = Raise (AttributeError 0%nat "mol") no_mol_world.
Proof.
  apply (default_auxbasis_needs_mol scf_sample from_dm_sample aug_etb_sample
           0%nat VNone VNone VNone VNone ∅ no_mol_world no_mol).
  - reflexivity.
  - vm_compute. reflexivity.
  - reflexivity.
Defined.

Lemma grids_without_numint_raises_witness :
  ∃ w', fast_newton scf_sample from_dm_sample aug_etb_sample
          0%nat VNone VNone VNone VNone ∅ grids_only_world
        = Raise (AttributeError 0%nat "_numint") w'
        ∧ kernel_calls (new_events grids_only_world w') = [].
Proof.
  destruct (grids_without_numint_raises scf_sample from_dm_sample
              aug_etb_sample 0%nat VNone VNone VNone VNone ∅
              grids_only_world grids_only eq_refl)
    as (w' & g & Hrun & _ & _ & Hcalls).
  - exists (VRef 1%nat). vm_compute. reflexivity.
  - exists (VStr "H2"). vm_compute. reflexivity.
  - vm_compute. reflexivity.
  - exists w'. split; [exact Hrun | exact Hcalls].
Defined.

Lemma warm_start_needs_level_shift_witness :
  ∃ mf0 w', fast_newton scf_sample from_dm_sample aug_etb_sample
              0%nat VNone VNone VNone VNone ∅ no_level_shift_world
            = Raise (AttributeError mf0 "level_shift") w'
            ∧ mf0 ≠ 0%nat.
Proof.
  destruct (warm_start_needs_level_shift scf_sample from_dm_sample
              aug_etb_sample 0%nat VNone VNone VNone VNone ∅
              no_level_shift_world no_level_shift eq_refl)
    as (mf0 & w' & Hrun & Hne & _).
  - vm_compute. reflexivity.
  - vm_compute. reflexivity.
  - right. exists (VStr "H2"). vm_compute. reflexivity.
  - reflexivity.
  - exists mf0, w'. split; [exact Hrun | exact Hne].
Defined.

Lemma fast_scf_warns_and_runs_both_phases_witness :
  ∃ w' rest,
    fast_scf scf_sample from_dm_sample aug_etb_sample 0%nat h2_world
    = Ok 0%nat w'
    ∧ new_events h2_world w' = EvLog Warn 0%nat msg_fast_scf :: rest
    ∧ length (kernel_calls rest) = 2%nat.
Proof.
  destruct (fast_scf_warns_and_runs_both_phases scf_sample from_dm_sample
              aug_etb_sample 0%nat h2_world rhf_h2 eq_refl Runs.h2_ready)
    as (w' & rest & mf0 & self0 & mf1 & self1 & args1 & Hrun & Hev & Hcalls
        & _).
  exists w', rest. split; [exact Hrun|]. split; [exact Hev|].
  rewrite Hcalls. reflexivity.
Defined.

Lemma guard_returns_current_energy_witness :
  h2_run = Ok 0%nat (final_world h2_run)
  ∧ ∃ w'',
      (setattr 0%nat "e_tot" (VNum 7)
       ≫= λ _, call_kernel scf_sample 0%nat []) (final_world h2_run)
      = Ok (VNum 7) w''.
Proof.
  assert (Hrun : h2_run = Ok 0%nat (final_world h2_run))
    by (vm_compute; reflexivity).
  split; [exact Hrun|].
  destruct (guard_returns_current_energy scf_sample from_dm_sample
              aug_etb_sample 0%nat VNone VNone VNone VNone ∅
              h2_world 0%nat (final_world h2_run) (VNum 7) [] Hrun)
    as (w'' & Hcall & _).
  exists w''. exact Hcall.
Defined.

End ExtraRuns.
